(** * A shallow embedding of the from-scratch kNN functions

    The notebook's appendix "Designing the kNN algorithm yourself" defines
    four Python functions: [euclidean_distance], [get_neighbours],
    [get_response] and [get_accuracy].  Each is embedded below as a Rocq
    function with the name it has in the notebook.

    Conventions.
    - A Python exception is a value of [exn]; a call that may raise returns
      a [result].  No function of the notebook catches anything, so a
      [Raise] always reaches the caller.
    - Arithmetic is exact: the features and the distances are real numbers
      ([R]), the score of [get_accuracy] is a rational ([Q]).  Rounding of
      double-precision floats is outside the model.
    - A Python list and a one-dimensional numpy array are a [list]; a
      two-dimensional numpy array is the list of its rows, all of one
      length.
    - A dict keeps its items in insertion order (Python 3.7 on), and
      [np.array] of the list of [[row, dist]] pairs is the object array
      with one line per pair (numpy before 1.24). *)

From Stdlib Require Import List Arith ZArith QArith Reals Lra Lia.
From Stdlib Require Import Permutation Sorted Bool String.
Import ListNotations.

Set Implicit Arguments.

#[local] Close Scope R_scope.
#[local] Close Scope Q_scope.
#[local] Open Scope nat_scope.

(** ** Python values and exceptions *)

Module Py.

Inductive exn : Type :=
| IndexError
| ZeroDivisionError
| ValueError.

Inductive result (A : Type) : Type :=
| Ok (a : A)
| Raise (e : exn).

Arguments Ok {A} a.
Arguments Raise {A} e.

Definition bind {A B : Type} (m : result A) (k : A -> result B) : result B :=
  match m with
  | Ok a => k a
  | Raise e => Raise e
  end.

(** [xs[i]] for an index [i >= 0]: IndexError past the end. *)
Definition getitem {A : Type} (xs : list A) (i : nat) : result A :=
  match nth_error xs i with
  | Some x => Ok x
  | None => Raise IndexError
  end.

(** [range(n)] *)
Definition range (n : nat) : list nat := seq 0 n.

(** [xs[:K]]: a negative [K] counts from the end, and a slice never
    raises. *)
Definition slice_to {A : Type} (xs : list A) (K : Z) : list A :=
  if (K <? 0)%Z
  then firstn (Z.to_nat (Z.of_nat (List.length xs) + K)) xs
  else firstn (Z.to_nat K) xs.

(** [math.sqrt]: ValueError ("math domain error") below zero. *)
Definition math_sqrt (x : R) : result R :=
  if Rlt_dec x 0 then Raise ValueError else Ok (sqrt x).

(** The body of a [for] loop run on each element in turn, the first
    exception ending the loop. *)
Fixpoint mapM {A B : Type} (f : A -> result B) (xs : list A) : result (list B) :=
  match xs with
  | [] => Ok []
  | x :: xs' =>
      bind (f x) (fun y => bind (mapM f xs') (fun ys => Ok (y :: ys)))
  end.

End Py.

Import Py.

Notation "x <- m ;; k" := (bind m (fun x => k))
  (at level 61, m at next level, right associativity).

(** ** Define Euclidean Distance *)

(** The loop [for l in range(length): distance += (instance1[l] - instance2[l])**2],
    with [distance] the value accumulated so far. *)
Fixpoint distance_loop (instance1 instance2 : list R) (ls : list nat)
    (distance : R) : result R :=
  match ls with
  | [] => Ok distance
  | l :: ls' =>
      x <- getitem instance1 l ;;
      y <- getitem instance2 l ;;
      distance_loop instance1 instance2 ls' (distance + (x - y) ^ 2)%R
  end.

Definition euclidean_distance (instance1 instance2 : list R) : result R :=
  let length := List.length instance1 in
  distance <- distance_loop instance1 instance2 (range length) 0%R ;;
  math_sqrt distance.

(** The sum over all dimensions of the squared per-dimension difference, as
    the specification words it (no indices, no accumulator). *)
Definition sum_sq_diff (a b : list R) : R :=
  fold_right Rplus 0%R (map (fun p => (fst p - snd p) ^ 2)%R (combine a b)).

(** ** numpy *)

(** [np.argsort(keys)] with its default [kind] ('quicksort', which numpy
    documents as not stable).  numpy is not part of the notebook, so the
    class states only what every kind guarantees: the result is a
    permutation of [range(len(keys))] along which the keys ascend.  What
    happens among equal keys is left to the instance. *)
Class ArgSort : Type := {
  argsort : list R -> list nat;
  argsort_perm : forall keys, Permutation (argsort keys) (range (List.length keys));
  argsort_sorted : forall keys,
    Sorted Rle (map (fun i => nth i keys 0%R) (argsort keys))
}.

(** [xs[idx]] for an index array [idx]: IndexError when an index is past
    the end. *)
Definition take {A : Type} (xs : list A) (idx : list nat) : result (list A) :=
  mapM (getitem xs) idx.

(** [np.array(distances)[:, 1]] for [distances] a list of pairs
    [[row, dist]].  An empty list makes a one-dimensional empty array, and
    indexing it with two indices raises IndexError. *)
Definition column1 {A : Type} (distances : list (A * R)) : result (list R) :=
  match distances with
  | [] => Raise IndexError
  | _ :: _ => Ok (map snd distances)
  end.

(** Two insertion argsorts, which differ only among equal keys.  Inserting
    the indices from the last to the first, [insert_idx] puts [i] in front
    of the first index whose key [before] allows it to precede. *)
Section InsertionArgsort.

Variable before : forall x y : R, {(x <= y)%R} + {(y <= x)%R}.
Variable keys : list R.

Fixpoint insert_idx (i : nat) (sorted : list nat) : list nat :=
  match sorted with
  | [] => [i]
  | j :: rest =>
      if before (nth i keys 0%R) (nth j keys 0%R)
      then i :: j :: rest
      else j :: insert_idx i rest
  end.

Definition insertion_argsort : list nat :=
  fold_right insert_idx [] (range (List.length keys)).

End InsertionArgsort.

(** [i] goes in front of an equal key: the first of two equal keys stays
    first (a stable sort). *)
Definition before_stable (x y : R) : {(x <= y)%R} + {(y <= x)%R} :=
  match Rle_dec x y with
  | left h => left h
  | right h => right (Rlt_le _ _ (Rnot_le_lt _ _ h))
  end.


(** ** Get the K nearest neighbours *)

Record neighbours (label : Type) : Type := {
  data : list (list R);
  labels : list label
}.

(** One turn of [for i in range(len(data))]: the pair appended to
    [distances] for the row [data[i, :]]. *)
Definition distance_entry (test_instance row : list R) : result (list R * R) :=
  dist <- euclidean_distance test_instance row ;;
  Ok (row, dist).

Definition get_neighbours {AS : ArgSort} {label : Type}
    (data : list (list R)) (labels : list label) (test_instance : list R)
    (K : Z) : result (neighbours label) :=
  distances <- mapM (distance_entry test_instance) data ;;
  column <- column1 distances ;;
  let idx := argsort column in
  neighbours_data <- take data idx ;;
  neighbours_label <- take labels idx ;;
  Ok {| data := slice_to neighbours_data K;
        labels := slice_to neighbours_label K |}.



(** The index array [idx] of [get_neighbours] when no distance raises. *)
Definition sorted_indices {AS : ArgSort} (reference : list (list R))
    (test_instance : list R) : list nat :=
  argsort (map (fun row => sqrt (sum_sq_diff test_instance row)) reference).

(** ** The response and the accuracy *)

Section Labels.

Variable label : Type.
Variable label_eq_dec : forall x y : label, {x = y} + {x <> y}.

(** [class_votes] is a Python dict: its items are kept in the order in which
    the keys were first inserted, and assigning to a present key keeps the
    key where it is. *)
Definition dict : Type := list (label * nat).

Fixpoint dict_get (class_votes : dict) (response : label) : option nat :=
  match class_votes with
  | [] => None
  | (k, v) :: rest =>
      if label_eq_dec response k then Some v else dict_get rest response
  end.

Fixpoint dict_set (class_votes : dict) (response : label) (n : nat) : dict :=
  match class_votes with
  | [] => [(response, n)]
  | (k, v) :: rest =>
      if label_eq_dec response k then (k, n) :: rest
      else (k, v) :: dict_set rest response n
  end.

(** The body of the voting loop. *)
Definition vote (class_votes : dict) (response : label) : dict :=
  match dict_get class_votes response with
  | Some n => dict_set class_votes response (n + 1)
  | None => dict_set class_votes response 1
  end.

(** [sorted(items, key=operator.itemgetter(1), reverse=True)]: Python's sort
    is stable, also with [reverse=True], so items with equal counts keep
    their order.  A stable sort has one possible result; it is computed here
    by insertion. *)
Fixpoint insert_vote (item : label * nat) (sorted : list (label * nat))
    : list (label * nat) :=
  match sorted with
  | [] => [item]
  | item' :: rest =>
      if (snd item <? snd item')%nat
      then item' :: insert_vote item rest
      else item :: item' :: rest
  end.

Definition sorted_by_votes (items : list (label * nat)) : list (label * nat) :=
  fold_right insert_vote [] items.

(** The dict [class_votes] after the voting loop, and the keys of a dict in
    the order of its items. *)
Definition tally (neighbours : list label) : dict :=
  fold_left vote neighbours [].

Definition keys (class_votes : dict) : list label := map fst class_votes.

Definition get_response (neighbours : list label) : result label :=
  let class_votes := tally neighbours in
  let sorted_votes := sorted_by_votes class_votes in
  first <- getitem sorted_votes 0 ;;
  Ok (fst first).

(** The loop of [get_accuracy], with [correct] the count so far. *)
Fixpoint accuracy_loop (test_set predictions : list label) (indices : list nat)
    (correct : Z) : result Z :=
  match indices with
  | [] => Ok correct
  | i :: indices' =>
      t <- getitem test_set i ;;
      p <- getitem predictions i ;;
      accuracy_loop test_set predictions indices'
        (if label_eq_dec t p then correct + 1 else correct)%Z
  end.

(** Division of two Python floats. *)
Definition float_div (x y : Q) : result Q :=
  if Qeq_bool y 0%Q then Raise ZeroDivisionError else Ok (x / y)%Q.

Definition get_accuracy (test_set predictions : list label) : result Q :=
  correct <- accuracy_loop test_set predictions
               (range (List.length test_set)) 0%Z ;;
  ratio <- float_div (inject_Z correct)
             (inject_Z (Z.of_nat (List.length test_set))) ;;
  Ok (ratio * 100)%Q.

(** The number of positions at which the two sequences agree, and the
    number of times a label occurs. *)
Definition matches (truth predicted : list label) : nat :=
  List.length (filter (fun p => if label_eq_dec (fst p) (snd p) then true else false)
            (combine truth predicted)).

Definition occurrences (x : label) (l : list label) : nat :=
  count_occ label_eq_dec l x.

(** The position of the first occurrence of [x] in [l] ([length l] when
    there is none). *)
Fixpoint first_index (x : label) (l : list label) : nat :=
  match l with
  | [] => 0
  | y :: l' => if label_eq_dec x y then 0 else S (first_index x l')
  end.

(** The answer cell of the exercise:
    [neighbours = get_neighbours(training_set, training_labels, test_instance, K)]
    then [label = get_response(neighbours['labels'])]. *)
Definition classify {AS : ArgSort} (training_set : list (list R))
    (training_labels : list label) (test_instance : list R) (K : Z)
    : result label :=
  neighbours <- get_neighbours training_set training_labels test_instance K ;;
  get_response neighbours.(labels).

End Labels.

(** ** Accuracy against the number of neighbours *)

(** [range(start, stop, step)] for a positive [step]. *)
Definition range_step (start stop step : Z) : list Z :=
  map (fun i => (start + Z.of_nat i * step)%Z)
    (seq 0 (Z.to_nat ((stop - start + step - 1) / step))).

Section PlotVector.

(** scikit-learn is not part of the notebook.  [knn_score] stands for the
    three calls on [sklearn.neighbors.KNeighborsClassifier(n_neighbors = k,
    weights = weights)]: [fit(train_X, train_Y)], [predict(test_X)] and
    [score(test_X, test_Y)], with the mean accuracy they end on or the
    exception one of them raises. *)
Variables features targets weighting : Type.
Variable knn_score :
  features -> targets -> features -> targets -> weighting -> Z -> result R.

Definition plot_vector (train_X : features) (train_Y : targets)
    (test_X : features) (test_Y : targets) (weights : weighting)
    (upperLim : Z) : result (list (Z * R)) :=
  mapM (fun k =>
          accuracy <- knn_score train_X train_Y test_X test_Y weights k ;;
          Ok (k, (accuracy * 100)%R))
       (range_step 1 upperLim 4).

End PlotVector.

(** ** The elbow of k-means: distances to the centroids *)

(** The list [xs] with [v] at index [j]. *)
Definition list_set {A : Type} (xs : list A) (j : nat) (v : A) : list A :=
  firstn j xs ++ v :: skipn (S j) xs.

(** [xs[j] = v] for an index [j >= 0]: IndexError past the end. *)
Definition setitem {A : Type} (xs : list A) (j : nat) (v : A) : result (list A) :=
  if j <? List.length xs then Ok (list_set xs j v) else Raise IndexError.

(** The loop [for k in range(3):
    euclidean_distances[j] += (X_scaled[j][k] - centroids[cluster][k])**2],
    with the list [euclidean_distances] passed along. *)
Fixpoint feature_loop (X_scaled centroids : list (list R)) (j cluster : nat)
    (ks : list nat) (euclidean_distances : list R) : result (list R) :=
  match ks with
  | [] => Ok euclidean_distances
  | k :: ks' =>
      old <- getitem euclidean_distances j ;;
      row <- getitem X_scaled j ;;
      x <- getitem row k ;;
      centroid <- getitem centroids cluster ;;
      c <- getitem centroid k ;;
      euclidean_distances' <-
        setitem euclidean_distances j (old + (x - c) ^ 2)%R ;;
      feature_loop X_scaled centroids j cluster ks' euclidean_distances'
  end.

(** One turn of [for j in range(len(X_scaled))].  The power [**0.5] is
    applied to a sum of squares, where it is the square root. *)
Definition point_step (X_scaled : list (list R)) (labels : list nat)
    (centroids : list (list R)) (euclidean_distances : list R) (j : nat)
    : result (list R) :=
  cleared <- setitem euclidean_distances j 0%R ;;
  cluster <- getitem labels j ;;
  summed <- feature_loop X_scaled centroids j cluster (range 3) cleared ;;
  total <- getitem summed j ;;
  setitem summed j (sqrt total).

Fixpoint points_loop (X_scaled : list (list R)) (labels : list nat)
    (centroids : list (list R)) (js : list nat) (euclidean_distances : list R)
    : result (list R) :=
  match js with
  | [] => Ok euclidean_distances
  | j :: js' =>
      euclidean_distances' <-
        point_step X_scaled labels centroids euclidean_distances j ;;
      points_loop X_scaled labels centroids js' euclidean_distances'
  end.

(** The list [euclidean_distances] after the loop over the points, for the
    cluster of each point ([labels]) and the centre of each cluster
    ([centroids]) that k-means found. *)
Definition distances_to_centroids (X_scaled : list (list R)) (labels : list nat)
    (centroids : list (list R)) (euclidean_distances : list R)
    : result (list R) :=
  points_loop X_scaled labels centroids (range (List.length X_scaled))
    euclidean_distances.

(** The number of elements of [xs[:K]] for a sequence of [n] elements. *)
Definition slice_count (n : nat) (K : Z) : nat :=
  if (K <? 0)%Z then Z.to_nat (Z.of_nat n + K) else Nat.min (Z.to_nat K) n.

(** * Properties *)

(** ** The result monad and indexing *)

Lemma getitem_app_here {A : Type} (pre : list A) (x : A) (post : list A) :
  getitem (pre ++ x :: post) (List.length pre) = Ok x.
Proof.
  unfold getitem.
  rewrite nth_error_app2 by lia.
  now rewrite Nat.sub_diag.
Qed.

Lemma getitem_past_end {A : Type} (xs : list A) (i : nat) :
  List.length xs <= i -> getitem xs i = Raise IndexError.
Proof.
  intros Hi. unfold getitem.
  now apply nth_error_None in Hi as ->.
Qed.

Lemma getitem_nth {A : Type} (xs : list A) (i : nat) (d : A) :
  i < List.length xs -> getitem xs i = Ok (nth i xs d).
Proof.
  intros Hi. unfold getitem.
  now rewrite (nth_error_nth' xs d Hi).
Qed.

Lemma mapM_length {A B : Type} (f : A -> result B) (xs : list A) (ys : list B) :
  mapM f xs = Ok ys -> List.length ys = List.length xs.
Proof.
  revert ys. induction xs as [|x xs IH]; simpl; intros ys H.
  - now inversion H.
  - destruct (f x) as [y|]; simpl in H; [|discriminate].
    destruct (mapM f xs) as [ys'|]; simpl in H; [|discriminate].
    inversion H; subst; simpl. now rewrite (IH ys').
Qed.

Lemma mapM_Ok_map {A B : Type} (f : A -> result B) (g : A -> B) (xs : list A) :
  (forall x, In x xs -> f x = Ok (g x)) -> mapM f xs = Ok (map g xs).
Proof.
  induction xs as [|x xs IH]; simpl; intros H; [reflexivity|].
  rewrite (H x) by now left. simpl.
  rewrite IH by (intros; apply H; now right).
  reflexivity.
Qed.

(** ** Euclidean distance *)

Lemma sum_sq_diff_nonneg (a b : list R) : (0 <= sum_sq_diff a b)%R.
Proof.
  unfold sum_sq_diff.
  induction (combine a b) as [|p l IH]; cbn [map fold_right]; [lra|].
  pose proof (pow2_ge_0 (fst p - snd p)).
  lra.
Qed.

Lemma sum_sq_diff_firstn (a b : list R) :
  sum_sq_diff a (firstn (List.length a) b) = sum_sq_diff a b.
Proof.
  unfold sum_sq_diff. f_equal. f_equal.
  revert b. induction a as [|x a IH]; intros [|y b]; simpl; try reflexivity.
  now rewrite IH.
Qed.

(** The loop from index [length pa] on: it adds the squared differences of
    the remaining dimensions, or stops with IndexError at the first index
    the second vector does not have. *)
Lemma distance_loop_from (a b pa pb : list R) (acc : R) :
  List.length pa = List.length pb ->
  distance_loop (pa ++ a) (pb ++ b) (seq (List.length pa) (List.length a)) acc =
  if List.length a <=? List.length b
  then Ok (acc + sum_sq_diff a b)%R
  else Raise IndexError.
Proof.
  revert b pa pb acc.
  induction a as [|x a IH]; intros b pa pb acc Hlen.
  - simpl. unfold sum_sq_diff. simpl. now rewrite Rplus_0_r.
  - cbn [List.length seq distance_loop].
    rewrite getitem_app_here. cbn [bind].
    destruct b as [|y b].
    + rewrite getitem_past_end by (rewrite app_nil_r; lia).
      reflexivity.
    + rewrite Hlen, getitem_app_here. cbn [bind].
      replace (pa ++ x :: a) with ((pa ++ [x]) ++ a) by now rewrite <- app_assoc.
      replace (pb ++ y :: b) with ((pb ++ [y]) ++ b) by now rewrite <- app_assoc.
      replace (S (List.length pb)) with (List.length (pa ++ [x]))
        by (rewrite length_app; simpl; lia).
      rewrite IH by (rewrite !length_app; simpl; lia).
      cbn [List.length]. change (S (List.length a) <=? S (List.length b))
        with (List.length a <=? List.length b).
      destruct (List.length a <=? List.length b); [|reflexivity].
      f_equal. unfold sum_sq_diff. simpl. ring.
Qed.

Lemma math_sqrt_nonneg (x : R) : (0 <= x)%R -> math_sqrt x = Ok (sqrt x).
Proof.
  intros Hx. unfold math_sqrt.
  destruct (Rlt_dec x 0); [lra|reflexivity].
Qed.

(** What [euclidean_distance] does on any two vectors. *)
Lemma euclidean_distance_cases (a b : list R) :
  euclidean_distance a b =
  if List.length a <=? List.length b
  then Ok (sqrt (sum_sq_diff a b))
  else Raise IndexError.
Proof.
  unfold euclidean_distance, range.
  pose proof (distance_loop_from a b [] [] 0%R eq_refl) as Hloop.
  cbn [app List.length] in Hloop. rewrite Hloop.
  destruct (List.length a <=? List.length b); [|reflexivity].
  cbn [bind]. rewrite Rplus_0_l.
  apply math_sqrt_nonneg, sum_sq_diff_nonneg.
Qed.



(** C2, as amended: when the second vector is shorter than the first, the
    call raises IndexError at the first missing dimension. *)
Theorem euclidean_distance_second_shorter (a b : list R) :
  List.length b < List.length a ->
  euclidean_distance a b = Raise IndexError.
Proof.
  intros Hlen. rewrite euclidean_distance_cases.
  destruct (Nat.leb_spec (List.length a) (List.length b)); [lia|reflexivity].
Qed.

Lemma euclidean_distance_second_shorter_witness :
  euclidean_distance [1; 2]%R [1]%R = Raise IndexError.
Proof.
  apply (euclidean_distance_second_shorter [1; 2]%R [1]%R).
  simpl. lia.
Defined.

(** C2, as stated, fails: the lengths 1 and 2 differ and the call returns
    a distance. *)
Lemma euclidean_distance_mismatch_not_raised :
  List.length [0%R] <> List.length [0%R; 1%R] /\
  euclidean_distance [0%R] [0%R; 1%R] = Ok 0%R.
Proof.
  split; [discriminate|].
  rewrite euclidean_distance_cases. simpl.
  f_equal. rewrite <- sqrt_0. f_equal.
  unfold sum_sq_diff. simpl. ring.
Qed.



(** ** Accuracy *)

Section AccuracyFacts.

Variable label : Type.
Variable label_eq_dec : forall x y : label, {x = y} + {x <> y}.

Lemma matches_le_length (truth predicted : list label) :
  matches label_eq_dec truth predicted <= List.length truth.
Proof.
  unfold matches.
  etransitivity; [apply filter_length_le|].
  rewrite length_combine. apply Nat.le_min_l.
Qed.

(** The loop from index [length pt] on: it counts the agreeing positions
    that remain, or stops with IndexError at the first index [predictions]
    does not have. *)
Lemma accuracy_loop_from (t p pt pp : list label) (correct : Z) :
  List.length pt = List.length pp ->
  accuracy_loop label_eq_dec (pt ++ t) (pp ++ p)
    (seq (List.length pt) (List.length t)) correct =
  if List.length t <=? List.length p
  then Ok (correct + Z.of_nat (matches label_eq_dec t p))%Z
  else Raise IndexError.
Proof.
  revert p pt pp correct.
  induction t as [|x t IH]; intros p pt pp correct Hlen.
  - simpl. f_equal. unfold matches. simpl. lia.
  - cbn [List.length seq accuracy_loop].
    rewrite getitem_app_here. cbn [bind].
    destruct p as [|y p].
    + rewrite getitem_past_end by (rewrite app_nil_r; lia).
      reflexivity.
    + rewrite Hlen, getitem_app_here. cbn [bind].
      replace (pt ++ x :: t) with ((pt ++ [x]) ++ t) by now rewrite <- app_assoc.
      replace (pp ++ y :: p) with ((pp ++ [y]) ++ p) by now rewrite <- app_assoc.
      replace (S (List.length pp)) with (List.length (pt ++ [x]))
        by (rewrite length_app; simpl; lia).
      rewrite IH by (rewrite !length_app; simpl; lia).
      cbn [List.length]. change (S (List.length t) <=? S (List.length p))
        with (List.length t <=? List.length p).
      destruct (List.length t <=? List.length p); [|reflexivity].
      f_equal. unfold matches. cbn [combine filter fst snd].
      destruct (label_eq_dec x y); cbn [List.length]; lia.
Qed.

(** What [get_accuracy] does on any two sequences. *)
Lemma get_accuracy_cases (test_set predictions : list label) :
  get_accuracy label_eq_dec test_set predictions =
  if List.length test_set <=? List.length predictions
  then match test_set with
       | [] => Raise ZeroDivisionError
       | _ :: _ =>
           Ok (inject_Z (Z.of_nat (matches label_eq_dec test_set predictions)) /
               inject_Z (Z.of_nat (List.length test_set)) * 100)%Q
       end
  else Raise IndexError.
Proof.
  unfold get_accuracy, range.
  pose proof (accuracy_loop_from test_set predictions [] [] 0%Z eq_refl) as Hloop.
  cbn [app List.length] in Hloop. rewrite Hloop.
  destruct (List.length test_set <=? List.length predictions); [|reflexivity].
  cbn [bind]. rewrite Z.add_0_l.
  destruct test_set as [|x test_set]; [reflexivity|].
  unfold float_div.
  destruct (Qeq_bool _ 0%Q) eqn:Hzero; [|reflexivity].
  apply Qeq_bool_eq in Hzero. unfold Qeq in Hzero. simpl in Hzero. lia.
Qed.

(** The score of a non-empty test set is a percentage. *)
Lemma percentage_bounds (c n : nat) :
  c <= n -> 0 < n ->
  (0 <= inject_Z (Z.of_nat c) / inject_Z (Z.of_nat n) * 100 <= 100)%Q.
Proof.
  intros Hc Hn.
  destruct n as [|n]; [lia|].
  unfold Qle, Qdiv, Qmult, Qinv, inject_Z.
  cbn [Z.of_nat Qnum Qden].
  rewrite !Z.mul_1_r, !Pos.mul_1_l, !Pos.mul_1_r.
  cbn [Z.mul Z.pos_sub]. split; lia.
Qed.

End AccuracyFacts.

(** C1, as amended: for two non-empty label sequences of equal length,
    [get_accuracy] returns one hundred times the number of agreeing
    positions divided by the length, a rational number between 0 and 100;
    for ['a','a','b'] against ['a','a','a'] it returns 200/3. *)
Theorem get_accuracy_percentage :
  (forall (label : Type) (label_eq_dec : forall x y : label, {x = y} + {x <> y})
          (truth predicted : list label),
     List.length truth = List.length predicted ->
     truth <> [] ->
     get_accuracy label_eq_dec truth predicted =
       Ok (inject_Z (Z.of_nat (matches label_eq_dec truth predicted)) /
           inject_Z (Z.of_nat (List.length truth)) * 100)%Q /\
     (0 <= inject_Z (Z.of_nat (matches label_eq_dec truth predicted)) /
           inject_Z (Z.of_nat (List.length truth)) * 100 <= 100)%Q) /\
  get_accuracy string_dec ["a"; "a"; "b"]%string ["a"; "a"; "a"]%string =
    Ok (200 # 3)%Q.
Proof.
  split; [|reflexivity].
  intros label label_eq_dec truth predicted Hlen Hne. split.
  - rewrite get_accuracy_cases, Hlen, Nat.leb_refl.
    destruct truth; [contradiction|reflexivity].
  - apply percentage_bounds; [apply matches_le_length|].
    destruct truth; [contradiction|simpl; lia].
Qed.

Lemma get_accuracy_percentage_witness :
  get_accuracy Z.eq_dec [1; 2; 2; 1]%Z [1; 1; 2; 2]%Z =
    Ok (inject_Z (Z.of_nat (matches Z.eq_dec [1; 2; 2; 1]%Z [1; 1; 2; 2]%Z)) /
        inject_Z (Z.of_nat 4) * 100)%Q.
Proof.
  apply (proj1 get_accuracy_percentage Z Z.eq_dec [1; 2; 2; 1]%Z [1; 1; 2; 2]%Z).
  - reflexivity.
  - discriminate.
Defined.

(** C1, as stated, fails: the score of ['a','a','b'] against ['a','a','a']
    is 200/3, which is neither 2/3 nor at most 1. *)
Lemma get_accuracy_not_a_fraction :
  exists v : Q,
    get_accuracy string_dec ["a"; "a"; "b"]%string ["a"; "a"; "a"]%string = Ok v /\
    ~ (v == 2 # 3)%Q /\ ~ (v <= 1)%Q.
Proof.
  exists (200 # 3)%Q. split; [reflexivity|].
  split; intros H; vm_compute in H; [discriminate|].
  now apply H.
Qed.

(** C8, as amended: [get_accuracy] raises IndexError when the predictions
    are fewer than the true labels, and ZeroDivisionError when there is no
    true label; so it raises whenever either sequence is empty.  Given a
    true label and at least as many predictions as true labels it returns
    the score of the first [len(test_set)] predictions, whether or not
    more predictions follow. *)
Theorem get_accuracy_raises (label : Type)
    (label_eq_dec : forall x y : label, {x = y} + {x <> y})
    (truth predicted : list label) :
  (List.length predicted < List.length truth ->
   get_accuracy label_eq_dec truth predicted = Raise IndexError) /\
  (truth = [] ->
   get_accuracy label_eq_dec truth predicted = Raise ZeroDivisionError) /\
  (truth = [] \/ predicted = [] ->
   exists e, get_accuracy label_eq_dec truth predicted = Raise e) /\
  (truth <> [] -> List.length truth <= List.length predicted ->
   get_accuracy label_eq_dec truth predicted =
     Ok (inject_Z (Z.of_nat (matches label_eq_dec truth predicted)) /
         inject_Z (Z.of_nat (List.length truth)) * 100)%Q).
Proof.
  assert (Hshort : List.length predicted < List.length truth ->
                   get_accuracy label_eq_dec truth predicted = Raise IndexError).
  { intros Hlen. rewrite get_accuracy_cases.
    destruct (Nat.leb_spec (List.length truth) (List.length predicted));
      [lia|reflexivity]. }
  assert (Hempty : truth = [] ->
                   get_accuracy label_eq_dec truth predicted = Raise ZeroDivisionError).
  { intros ->. now rewrite get_accuracy_cases. }
  split; [exact Hshort|]. split; [exact Hempty|]. split.
  - intros [Ht|Hp].
    + eexists. now apply Hempty.
    + destruct truth as [|x truth].
      * eexists. now apply Hempty.
      * eexists. apply Hshort. subst predicted. simpl. lia.
  - intros Hne Hlen. rewrite get_accuracy_cases.
    destruct (Nat.leb_spec (List.length truth) (List.length predicted)); [|lia].
    destruct truth; [contradiction|reflexivity].
Qed.

Lemma get_accuracy_raises_witness :
  get_accuracy string_dec ["a"; "b"]%string ["a"]%string = Raise IndexError /\
  get_accuracy string_dec [] ["a"]%string = Raise ZeroDivisionError.
Proof.
  split.
  - apply (proj1 (get_accuracy_raises string_dec ["a"; "b"]%string ["a"]%string)).
    simpl. lia.
  - apply (proj1 (proj2 (get_accuracy_raises string_dec [] ["a"]%string))).
    reflexivity.
Defined.

(** C8, as stated, fails: one true label against two predictions has
    mismatched lengths and is scored 100. *)
Lemma get_accuracy_scores_longer_predictions :
  List.length ["a"%string] <> List.length ["a"; "b"]%string /\
  get_accuracy string_dec ["a"%string] ["a"; "b"]%string = Ok (100 # 1)%Q.
Proof.
  split; [discriminate|reflexivity].
Qed.

(** ** The response *)

(** Two facts on lists sorted by a relation. *)
Lemma StronglySorted_weaken {A : Type} (P Q : A -> A -> Prop) (l : list A) :
  (forall a b, In a l -> In b l -> P a b -> Q a b) ->
  StronglySorted P l -> StronglySorted Q l.
Proof.
  induction l as [|x l IH]; intros Himp Hs; [constructor|].
  inversion Hs as [|? ? Hl Hx]; subst. constructor.
  - apply IH; [|assumption].
    intros a b Ha Hb. apply Himp; now right.
  - rewrite Forall_forall in *. intros b Hb.
    apply Himp; [now left|now right|now apply Hx].
Qed.

Lemma StronglySorted_snoc {A : Type} (P : A -> A -> Prop) (l : list A) (x : A) :
  StronglySorted P l -> (forall a, In a l -> P a x) ->
  StronglySorted P (l ++ [x]).
Proof.
  induction l as [|y l IH]; intros Hs Hx; simpl.
  - repeat constructor.
  - inversion Hs as [|? ? Hl Hy]; subst. constructor.
    + apply IH; [assumption|]. intros a Ha. apply Hx. now right.
    + apply Forall_app. split; [assumption|].
      constructor; [|constructor]. apply Hx. now left.
Qed.

Lemma StronglySorted_after {A : Type} (P : A -> A -> Prop) (p q : list A) (x y : A) :
  StronglySorted P (p ++ x :: q) -> In y q -> P x y.
Proof.
  induction p as [|z p IH]; simpl; intros Hs Hy.
  - inversion Hs as [|? ? _ Hx]; subst.
    rewrite Forall_forall in Hx. now apply Hx.
  - inversion Hs; subst. now apply IH.
Qed.

Section ResponseFacts.

Variable label : Type.
Variable label_eq_dec : forall x y : label, {x = y} + {x <> y}.

#[local] Abbreviation dict_get := (dict_get label_eq_dec).
#[local] Abbreviation dict_set := (dict_set label_eq_dec).
#[local] Abbreviation vote := (vote label_eq_dec).
#[local] Abbreviation tally := (tally label_eq_dec).
#[local] Abbreviation occurrences := (occurrences label_eq_dec).
#[local] Abbreviation first_index := (first_index label_eq_dec).
#[local] Abbreviation get_response := (get_response label_eq_dec).

(** *** Reading and writing the dict *)

Lemma dict_get_set (d : dict label) (k k' : label) (n : nat) :
  dict_get (dict_set d k n) k' =
  if label_eq_dec k' k then Some n else dict_get d k'.
Proof.
  induction d as [|[k0 v0] d IH]; simpl.
  - destruct (label_eq_dec k' k); reflexivity.
  - destruct (label_eq_dec k k0) as [->|Hk]; simpl.
    + destruct (label_eq_dec k' k0); reflexivity.
    + destruct (label_eq_dec k' k0) as [->|Hk'].
      * destruct (label_eq_dec k0 k); [congruence|reflexivity].
      * exact IH.
Qed.

Lemma keys_set_present (d : dict label) (k : label) (n : nat) :
  dict_get d k <> None -> keys (dict_set d k n) = keys d.
Proof.
  induction d as [|[k0 v0] d IH]; simpl; intros H; [congruence|].
  destruct (label_eq_dec k k0); simpl; [reflexivity|].
  f_equal. now apply IH.
Qed.

Lemma keys_set_absent (d : dict label) (k : label) (n : nat) :
  dict_get d k = None -> keys (dict_set d k n) = keys d ++ [k].
Proof.
  induction d as [|[k0 v0] d IH]; simpl; intros H; [reflexivity|].
  destruct (label_eq_dec k k0); [discriminate|]. simpl.
  f_equal. now apply IH.
Qed.

Lemma dict_get_In (d : dict label) (k : label) (v : nat) :
  dict_get d k = Some v -> In (k, v) d.
Proof.
  induction d as [|[k0 v0] d IH]; simpl; intros H; [discriminate|].
  destruct (label_eq_dec k k0) as [->|].
  - inversion H; subst. now left.
  - right. now apply IH.
Qed.

Lemma dict_get_None_keys (d : dict label) (k : label) :
  dict_get d k = None -> ~ In k (keys d).
Proof.
  induction d as [|[k0 v0] d IH]; simpl; intros H; [tauto|].
  destruct (label_eq_dec k k0); [discriminate|].
  intros [Hk|Hk]; [congruence|]. now apply IH.
Qed.

Lemma In_dict_get (d : dict label) (k : label) (v : nat) :
  NoDup (keys d) -> In (k, v) d -> dict_get d k = Some v.
Proof.
  induction d as [|[k0 v0] d IH]; simpl; intros Hnd Hin; [contradiction|].
  inversion Hnd as [|? ? Hk0 Hd]; subst.
  destruct Hin as [Heq|Hin].
  - inversion Heq; subst.
    destruct (label_eq_dec k k); [reflexivity|congruence].
  - destruct (label_eq_dec k k0) as [->|]; [|now apply IH].
    exfalso. apply Hk0. unfold keys.
    change k0 with (fst (k0, v)). now apply in_map.
Qed.

(** *** Counting and first positions *)

Lemma occurrences_snoc (l : list label) (x k : label) :
  occurrences k (l ++ [x]) =
  occurrences k l + (if label_eq_dec k x then 1 else 0).
Proof.
  unfold occurrences. rewrite count_occ_app. simpl.
  destruct (label_eq_dec x k) as [->|Hx]; destruct (label_eq_dec k k) as [|Hk];
    try destruct (label_eq_dec k x); congruence || lia.
Qed.

Lemma occurrences_pos (l : list label) (k : label) :
  In k l <-> 0 < occurrences k l.
Proof. apply count_occ_In. Qed.

Lemma first_index_lt (l : list label) (k : label) :
  In k l -> first_index k l < List.length l.
Proof.
  induction l as [|y l IH]; simpl; intros H; [contradiction|].
  destruct (label_eq_dec k y); [lia|].
  destruct H as [H|H]; [congruence|]. apply IH in H. lia.
Qed.

Lemma first_index_snoc_old (l : list label) (x k : label) :
  In k l -> first_index k (l ++ [x]) = first_index k l.
Proof.
  induction l as [|y l IH]; simpl; intros H; [contradiction|].
  destruct (label_eq_dec k y); [reflexivity|].
  destruct H as [H|H]; [congruence|]. now rewrite IH.
Qed.

Lemma first_index_snoc_new (l : list label) (x : label) :
  ~ In x l -> first_index x (l ++ [x]) = List.length l.
Proof.
  induction l as [|y l IH]; simpl; intros H.
  - destruct (label_eq_dec x x); [reflexivity|congruence].
  - destruct (label_eq_dec x y) as [->|]; [tauto|].
    rewrite IH; tauto.
Qed.

(** *** The dict after the voting loop *)

Lemma tally_snoc (l : list label) (x : label) :
  tally (l ++ [x]) = vote (tally l) x.
Proof. unfold tally. now rewrite fold_left_app. Qed.

(** Each label seen has its number of occurrences as value, and no other
    label is a key. *)
Lemma dict_get_tally (l : list label) (k : label) :
  dict_get (tally l) k =
  if occurrences k l =? 0 then None else Some (occurrences k l).
Proof.
  induction l as [|x l IH] using rev_ind; [reflexivity|].
  rewrite tally_snoc, occurrences_snoc.
  unfold vote.
  assert (Hset : forall n, dict_get (dict_set (tally l) x n) k =
                           if label_eq_dec k x then Some n else dict_get (tally l) k)
    by (intros; apply dict_get_set).
  destruct (label_eq_dec k x) as [->|Hk].
  - rewrite IH.
    destruct (Nat.eqb_spec (occurrences x l) 0) as [H0|H0];
      rewrite Hset;
      destruct (Nat.eqb_spec (occurrences x l + 1) 0); try lia;
      do 2 f_equal; lia.
  - rewrite Nat.add_0_r.
    destruct (dict_get (tally l) x); rewrite Hset; exact IH.
Qed.

Lemma keys_tally_In (l : list label) (k : label) :
  In k (keys (tally l)) <-> In k l.
Proof.
  rewrite (occurrences_pos l k). split.
  - intros Hin.
    destruct (Nat.eqb_spec (occurrences k l) 0) as [H0|H0]; [|lia].
    exfalso. pose proof (dict_get_tally l k) as Hget.
    rewrite H0 in Hget. simpl in Hget.
    now apply dict_get_None_keys in Hget.
  - intros Hpos. pose proof (dict_get_tally l k) as Hget.
    destruct (Nat.eqb_spec (occurrences k l) 0); [lia|].
    apply dict_get_In in Hget. unfold keys.
    change k with (fst (k, occurrences k l)). now apply in_map.
Qed.

(** The keys are in the order in which the labels were first seen. *)
Lemma keys_tally_sorted (l : list label) :
  StronglySorted (fun a b => first_index a l < first_index b l) (keys (tally l)).
Proof.
  induction l as [|x l IH] using rev_ind; [constructor|].
  rewrite tally_snoc. unfold vote.
  destruct (dict_get (tally l) x) as [n|] eqn:Hget.
  - rewrite keys_set_present by congruence.
    apply StronglySorted_weaken with (2 := IH).
    intros a b Ha Hb Hab.
      apply (proj1 (keys_tally_In l _)) in Ha, Hb.
    now rewrite !first_index_snoc_old.
  - rewrite keys_set_absent by assumption.
    assert (Hx : ~ In x l).
    { rewrite <- keys_tally_In. now apply dict_get_None_keys. }
    apply StronglySorted_snoc.
    + apply StronglySorted_weaken with (2 := IH).
      intros a b Ha Hb Hab.
      apply (proj1 (keys_tally_In l _)) in Ha, Hb.
      now rewrite !first_index_snoc_old.
    + intros a Ha. apply (proj1 (keys_tally_In l _)) in Ha.
      rewrite first_index_snoc_old, first_index_snoc_new by assumption.
      now apply first_index_lt.
Qed.

Lemma keys_tally_NoDup (l : list label) : NoDup (keys (tally l)).
Proof.
  pose proof (keys_tally_sorted l) as Hs.
  induction Hs as [|k ks Hs IH Hk]; constructor; [|exact IH].
  intros Hin. rewrite Forall_forall in Hk. apply Hk in Hin. lia.
Qed.

Lemma In_tally (l : list label) (k : label) (v : nat) :
  In (k, v) (tally l) <-> v = occurrences k l /\ In k l.
Proof.
  rewrite (occurrences_pos l k). split.
  - intros Hin. apply In_dict_get in Hin; [|apply keys_tally_NoDup].
    rewrite dict_get_tally in Hin.
    destruct (Nat.eqb_spec (occurrences k l) 0); [discriminate|].
    inversion Hin. lia.
  - intros [-> Hpos]. apply dict_get_In. rewrite dict_get_tally.
    destruct (Nat.eqb_spec (occurrences k l) 0); [lia|reflexivity].
Qed.

(** *** The head of the sorted items *)

(** The first item of [sorted_by_votes] is the first item of the dict whose
    count is the highest. *)
Lemma sorted_by_votes_head (d : dict label) :
  d <> [] ->
  exists h rest pre post,
    sorted_by_votes d = h :: rest /\
    d = pre ++ h :: post /\
    (forall y, In y pre -> snd y < snd h) /\
    (forall y, In y post -> snd y <= snd h).
Proof.
  induction d as [|item d IH]; intros Hne; [contradiction|].
  destruct d as [|item' d'].
  - exists item, [], [], []. simpl. repeat split; intros y [].
  - destruct IH as (h & rest & pre & post & Hsort & Hd & Hpre & Hpost);
      [discriminate|].
    change (sorted_by_votes (item :: item' :: d'))
      with (insert_vote item (sorted_by_votes (item' :: d'))).
    rewrite Hsort. cbn [insert_vote].
    destruct (Nat.ltb_spec (snd item) (snd h)) as [Hlt|Hge].
    + exists h, (insert_vote item rest), (item :: pre), post.
      split; [reflexivity|]. split; [now rewrite Hd|].
      split; [|exact Hpost].
      intros y [<-|Hy]; [exact Hlt|now apply Hpre].
    + exists item, (h :: rest), [], (item' :: d').
      split; [reflexivity|]. split; [reflexivity|].
      split; [intros y []|].
      intros y Hy. rewrite Hd in Hy.
      apply in_app_or in Hy as [Hy|[<-|Hy]].
      * apply Hpre in Hy. lia.
      * exact Hge.
      * apply Hpost in Hy. lia.
Qed.

(** *** The response *)

Lemma get_response_nonempty (l : list label) :
  l <> [] ->
  exists x,
    get_response l = Ok x /\
    In x l /\
    (forall y, occurrences y l <= occurrences x l) /\
    (forall y, occurrences y l = occurrences x l ->
               first_index x l <= first_index y l).
Proof.
  intros Hne.
  assert (Hd : tally l <> []).
  { destruct l as [|x l]; [contradiction|].
    intros Hnil. assert (Hin : In x (keys (tally (x :: l))))
      by (apply keys_tally_In; now left).
    now rewrite Hnil in Hin. }
  destruct (sorted_by_votes_head Hd)
    as ([x v] & rest & pre & post & Hsort & Hsplit & Hpre & Hpost).
  assert (Hh : In (x, v) (tally l))
    by (rewrite Hsplit; apply in_or_app; right; now left).
  apply In_tally in Hh as [Hv Hx].
  assert (Hmax : forall y, occurrences y l <= occurrences x l).
  { intros y.
    destruct (Nat.eqb_spec (occurrences y l) 0) as [H0|H0]; [lia|].
    assert (Hy : In (y, occurrences y l) (tally l))
      by (apply In_tally; split; [reflexivity|apply occurrences_pos; lia]).
    rewrite Hsplit in Hy. simpl in Hpre, Hpost.
    apply in_app_or in Hy as [Hy|[Hy|Hy]].
    - apply Hpre in Hy. simpl in Hy. lia.
    - inversion Hy; subst. lia.
    - apply Hpost in Hy. simpl in Hy. lia. }
  exists x. split; [|split; [exact Hx|split; [exact Hmax|]]].
  - unfold get_response. cbn zeta. now rewrite Hsort.
  - intros y Hy.
    assert (Hin : In (y, occurrences y l) (tally l)).
    { apply In_tally. split; [reflexivity|].
      apply occurrences_pos. rewrite Hy. now apply occurrences_pos. }
    rewrite Hsplit in Hin. simpl in Hpre.
    apply in_app_or in Hin as [Hin|[Hin|Hin]].
    + apply Hpre in Hin. simpl in Hin. lia.
    + inversion Hin; subst. lia.
    + pose proof (keys_tally_sorted l) as Hs.
      rewrite Hsplit in Hs. unfold keys in Hs.
      rewrite map_app in Hs. cbn [map fst] in Hs.
      apply Nat.lt_le_incl.
      refine (@StronglySorted_after _
                (fun a b => first_index a l < first_index b l)
                (map fst pre) (map fst post) x y Hs _).
      change y with (fst (y, occurrences y l)). now apply in_map.
Qed.

Lemma get_response_empty : get_response [] = Raise IndexError.
Proof. reflexivity. Qed.

End ResponseFacts.

(** C6: on a non-empty label sequence [get_response] returns a label of
    the sequence with the highest number of occurrences, and among the
    labels that reach that number the one whose first occurrence comes
    first; on [1, 1, 0] it returns 1. *)
Theorem get_response_plurality :
  (forall (label : Type) (label_eq_dec : forall x y : label, {x = y} + {x <> y})
          (neighbours : list label),
     neighbours <> [] ->
     exists x,
       get_response label_eq_dec neighbours = Ok x /\
       In x neighbours /\
       (forall y, occurrences label_eq_dec y neighbours <=
                  occurrences label_eq_dec x neighbours) /\
       (forall y, occurrences label_eq_dec y neighbours =
                  occurrences label_eq_dec x neighbours ->
                  first_index label_eq_dec x neighbours <=
                  first_index label_eq_dec y neighbours)) /\
  get_response Z.eq_dec [1; 1; 0]%Z = Ok 1%Z.
Proof.
  split; [|reflexivity].
  intros label label_eq_dec neighbours Hne.
  now apply get_response_nonempty.
Qed.

Lemma get_response_plurality_witness :
  exists x,
    get_response string_dec ["b"; "a"; "a"; "b"]%string = Ok x /\
    In x ["b"; "a"; "a"; "b"]%string /\
    (forall y, occurrences string_dec y ["b"; "a"; "a"; "b"]%string <=
               occurrences string_dec x ["b"; "a"; "a"; "b"]%string) /\
    (forall y, occurrences string_dec y ["b"; "a"; "a"; "b"]%string =
               occurrences string_dec x ["b"; "a"; "a"; "b"]%string ->
               first_index string_dec x ["b"; "a"; "a"; "b"]%string <=
               first_index string_dec y ["b"; "a"; "a"; "b"]%string).
Proof.
  apply (proj1 get_response_plurality string string_dec
           ["b"; "a"; "a"; "b"]%string).
  discriminate.
Defined.

(** C7: [get_response] raises exactly when its label sequence is empty,
    and what it raises then is the IndexError of [sorted_votes[0]]. *)
Theorem get_response_raises_iff_empty (label : Type)
    (label_eq_dec : forall x y : label, {x = y} + {x <> y})
    (neighbours : list label) (e : exn) :
  get_response label_eq_dec neighbours = Raise e <->
  neighbours = [] /\ e = IndexError.
Proof.
  split.
  - intros Hraise. destruct neighbours as [|x l].
    + rewrite get_response_empty in Hraise. inversion Hraise. now split.
    + destruct (@get_response_nonempty _ label_eq_dec (x :: l)) as (y & Hy & _);
        [discriminate|congruence].
  - intros [-> ->]. apply get_response_empty.
Qed.

(** ** Insertion argsort *)

Section InsertionArgsortFacts.

Variable before : forall x y : R, {(x <= y)%R} + {(y <= x)%R}.
Variable keys : list R.

#[local] Abbreviation key := (fun i : nat => nth i keys 0%R).

Lemma insert_idx_perm (i : nat) (l : list nat) :
  Permutation (insert_idx before keys i l) (i :: l).
Proof.
  induction l as [|j l IH]; simpl; [reflexivity|].
  destruct (before _ _); [reflexivity|].
  rewrite IH. apply perm_swap.
Qed.

Lemma insert_idx_sorted (i : nat) (l : list nat) :
  Sorted Rle (map key l) -> Sorted Rle (map key (insert_idx before keys i l)).
Proof.
  induction l as [|j l IH]; simpl; intros Hs.
  - repeat constructor.
  - inversion Hs as [|? ? Hl Hj]; subst.
    destruct (before _ _) as [Hle|Hle]; simpl.
    + constructor; [exact Hs|]. constructor. exact Hle.
    + constructor; [now apply IH|].
      destruct l as [|j' l]; simpl; [constructor; exact Hle|].
      destruct (before _ _); simpl; constructor; [exact Hle|].
      now inversion Hj.
Qed.

Lemma insertion_argsort_perm :
  Permutation (insertion_argsort before keys) (range (List.length keys)).
Proof.
  unfold insertion_argsort.
  induction (range (List.length keys)) as [|i l IH]; simpl; [reflexivity|].
  rewrite insert_idx_perm. now constructor.
Qed.

Lemma insertion_argsort_sorted :
  Sorted Rle (map key (insertion_argsort before keys)).
Proof.
  unfold insertion_argsort.
  induction (range (List.length keys)) as [|i l IH]; simpl; [constructor|].
  now apply insert_idx_sorted.
Qed.

End InsertionArgsortFacts.

(** A stable argsort (numpy's [kind='stable']), and an argsort that returns
    equal keys last index first.  Both are what [np.argsort] promises. *)
Definition stable_argsort : ArgSort :=
  {| argsort := insertion_argsort before_stable;
     argsort_perm := insertion_argsort_perm before_stable;
     argsort_sorted := insertion_argsort_sorted before_stable |}.


(** ** Nearest neighbours *)

Lemma take_nth {A : Type} (xs : list A) (idx : list nat) (d : A) :
  Forall (fun i => i < List.length xs) idx ->
  take xs idx = Ok (map (fun i => nth i xs d) idx).
Proof.
  intros Hidx. apply mapM_Ok_map.
  rewrite Forall_forall in Hidx.
  intros i Hi. now apply getitem_nth, Hidx.
Qed.

Lemma slice_to_nonneg {A : Type} (xs : list A) (K : Z) :
  (0 <= K)%Z -> slice_to xs K = firstn (Z.to_nat K) xs.
Proof.
  intros HK. unfold slice_to.
  destruct (Z.ltb_spec K 0); [lia|reflexivity].
Qed.


Lemma StronglySorted_map_inv {A B : Type} (f : A -> B) (P : B -> B -> Prop)
    (l : list A) :
  StronglySorted P (map f l) -> StronglySorted (fun a b => P (f a) (f b)) l.
Proof.
  induction l as [|x l IH]; simpl; intros Hs; [constructor|].
  inversion Hs as [|? ? Hl Hx]; subst. constructor; [now apply IH|].
  rewrite Forall_forall in *. intros y Hy. apply Hx. now apply in_map.
Qed.

(** The distances of the reference rows to the query, when every row has
    the dimension of the query. *)
Lemma distances_matching (test_instance : list R) (reference : list (list R)) :
  Forall (fun row => List.length row = List.length test_instance) reference ->
  mapM (euclidean_distance test_instance) reference =
    Ok (map (fun row => sqrt (sum_sq_diff test_instance row)) reference) /\
  mapM (distance_entry test_instance) reference =
    Ok (map (fun row => (row, sqrt (sum_sq_diff test_instance row))) reference).
Proof.
  intros Hdim. rewrite Forall_forall in Hdim.
  assert (Hrow : forall row, In row reference ->
                 euclidean_distance test_instance row =
                 Ok (sqrt (sum_sq_diff test_instance row))).
  { intros row Hin. rewrite euclidean_distance_cases, (Hdim row Hin).
    now rewrite Nat.leb_refl. }
  split; apply mapM_Ok_map; intros row Hin.
  - now apply Hrow.
  - unfold distance_entry. now rewrite Hrow.
Qed.

Lemma column1_map {A : Type} (f : A -> R) (xs : list A) :
  xs <> [] -> column1 (map (fun x => (x, f x)) xs) = Ok (map f xs).
Proof.
  destruct xs as [|x xs]; [contradiction|]. intros _.
  unfold column1. cbn [map]. do 2 f_equal.
  now rewrite map_map.
Qed.

Section NeighbourFacts.

Context {AS : ArgSort}.
Variable label : Type.
Variable reference : list (list R).
Variable reference_labels : list label.
Variable test_instance : list R.
Variable K : Z.

Hypothesis matching_dimension :
  Forall (fun row => List.length row = List.length test_instance) reference.
Hypothesis one_label_per_row :
  List.length reference_labels = List.length reference.
Hypothesis some_row : reference <> [].
Hypothesis K_nonneg : (0 <= K)%Z.

#[local] Abbreviation sorted_indices := (sorted_indices reference test_instance).

Lemma sorted_indices_perm :
  Permutation sorted_indices (range (List.length reference)).
Proof.
  unfold sorted_indices.
  rewrite <- (length_map (fun row => sqrt (sum_sq_diff test_instance row))).
  apply argsort_perm.
Qed.

Lemma sorted_indices_bound :
  Forall (fun i => i < List.length reference) sorted_indices.
Proof.
  apply Forall_forall. intros i Hi.
  apply (Permutation_in _ sorted_indices_perm) in Hi.
  unfold range in Hi. apply in_seq in Hi. lia.
Qed.

Lemma sorted_indices_length : List.length sorted_indices = List.length reference.
Proof.
  rewrite (Permutation_length sorted_indices_perm).
  apply length_seq.
Qed.

(** What [get_neighbours] returns. *)
Lemma get_neighbours_found (d : label) :
  get_neighbours reference reference_labels test_instance K =
  Ok {| data := firstn (Z.to_nat K)
                  (map (fun i => nth i reference []) sorted_indices);
        labels := firstn (Z.to_nat K)
                    (map (fun i => nth i reference_labels d) sorted_indices) |}.
Proof.
  unfold get_neighbours.
  rewrite (proj2 (@distances_matching test_instance reference matching_dimension)).
  cbn [bind].
  rewrite column1_map by exact some_row. cbn [bind].
  change (argsort (map (fun row => sqrt (sum_sq_diff test_instance row)) reference))
    with sorted_indices.
  rewrite (take_nth reference [] sorted_indices_bound). cbn [bind].
  rewrite (take_nth reference_labels d)
    by (rewrite one_label_per_row; apply sorted_indices_bound).
  cbn [bind]. now rewrite !slice_to_nonneg.
Qed.

Lemma found_lengths (d : label) :
  List.length (firstn (Z.to_nat K)
                 (map (fun i => nth i reference []) sorted_indices)) =
    Nat.min (Z.to_nat K) (List.length reference) /\
  List.length (firstn (Z.to_nat K)
                 (map (fun i => nth i reference_labels d) sorted_indices)) =
    Nat.min (Z.to_nat K) (List.length reference).
Proof.
  now rewrite !length_firstn, !length_map, sorted_indices_length.
Qed.


End NeighbourFacts.

(** An empty reference set: [np.array([])] has one dimension, and
    [get_neighbours] raises on its column 1 before any sort. *)
Lemma get_neighbours_empty {AS : ArgSort} (label : Type)
    (reference_labels : list label) (test_instance : list R) (K : Z) :
  get_neighbours [] reference_labels test_instance K = Raise IndexError.
Proof. reflexivity. Qed.

(** A reference set with a row has a label to serve as default. *)
Lemma some_label (label : Type) (reference : list (list R))
    (reference_labels : list label) :
  List.length reference_labels = List.length reference ->
  reference <> [] -> exists d : label, True.
Proof.
  destruct reference_labels as [|d l]; [|now exists d].
  destruct reference; [contradiction|discriminate].
Qed.



(** C5, as amended: for a reference set with at least one row, a query of
    the dimension of every row and [K] at least the number of rows,
    [get_neighbours] returns, and returns as many rows and as many labels as
    the reference set has. *)
Theorem get_neighbours_capped (AS : ArgSort) (label : Type)
    (reference : list (list R)) (reference_labels : list label)
    (test_instance : list R) (K : Z) :
  Forall (fun row => List.length row = List.length test_instance) reference ->
  List.length reference_labels = List.length reference ->
  reference <> [] ->
  (Z.of_nat (List.length reference) <= K)%Z ->
  exists found,
    get_neighbours reference reference_labels test_instance K = Ok found /\
    List.length (data found) = List.length reference /\
    List.length (labels found) = List.length reference.
Proof.
  intros Hdim Hlab Hne HK.
  destruct (some_label _ Hlab Hne) as [d _].
  assert (H0 : (0 <= K)%Z) by lia.
  eexists. split.
  { exact (@get_neighbours_found AS label reference reference_labels
             test_instance K Hdim Hlab Hne H0 d). }
  cbn [data labels].
  destruct (@found_lengths AS label reference reference_labels test_instance K d)
    as [-> ->].
  split; lia.
Qed.

Lemma get_neighbours_capped_witness :
  exists found,
    @get_neighbours stable_argsort Z [[2; 2]; [4; 4]]%R [0; 1]%Z [1; 1]%R 5 =
      Ok found /\
    List.length (data found) = 2 /\
    List.length (labels found) = 2.
Proof.
  apply (@get_neighbours_capped stable_argsort Z [[2; 2]; [4; 4]]%R [0; 1]%Z
           [1; 1]%R 5).
  - repeat constructor.
  - reflexivity.
  - discriminate.
  - simpl. lia.
Defined.

(** C5, as stated, fails: on the empty reference set, whose size 0 is at
    most [K = 1], [get_neighbours] raises IndexError. *)
Lemma get_neighbours_empty_reference_raises :
  (Z.of_nat (List.length (@nil (list R))) <= 1)%Z /\
  @get_neighbours stable_argsort Z [] [] [5; 5; 5]%R 1 = Raise IndexError.
Proof.
  split; [simpl; lia|reflexivity].
Qed.




(** ** Classification *)

(** Classifying against an empty reference set raises in [get_neighbours],
    before any vote. *)
Lemma classify_empty_reference {AS : ArgSort} (label : Type)
    (label_eq_dec : forall x y : label, {x = y} + {x <> y})
    (reference_labels : list label) (test_instance : list R) (K : Z) :
  classify label_eq_dec [] reference_labels test_instance K = Raise IndexError.
Proof. reflexivity. Qed.

(** An argsort has no choice on two keys that descend. *)
Lemma argsort_two_descending {AS : ArgSort} (a b : R) :
  (b < a)%R -> argsort [a; b] = [1; 0].
Proof.
  intros Hlt.
  pose proof (argsort_perm [a; b]) as Hperm.
  pose proof (argsort_sorted [a; b]) as Hsorted.
  apply Permutation_sym, Permutation_length_2_inv in Hperm as [Heq|Heq];
    [|exact Heq].
  exfalso. rewrite Heq in Hsorted. cbn [map nth] in Hsorted.
  inversion Hsorted as [|? ? _ Hhd]; subst.
  inversion Hhd; subst. lra.
Qed.

(** C9: classifying is voting on the labels of the neighbours found, and
    it yields a label whenever the reference set has a row, every row has
    the dimension of the query and [K >= 1]; for the reference rows [2,2,2]
    (label 0) and [4,4,4] (label 1), the query [5,5,5] and [K = 1], the
    neighbour found is [4,4,4] and the label is 1. *)
Theorem classify_votes_on_found_labels :
  (forall (AS : ArgSort) (label : Type)
          (label_eq_dec : forall x y : label, {x = y} + {x <> y})
          (reference : list (list R)) (reference_labels : list label)
          (test_instance : list R) (K : Z),
     classify label_eq_dec reference reference_labels test_instance K =
       (found <- get_neighbours reference reference_labels test_instance K ;;
        get_response label_eq_dec (labels found)) /\
     (Forall (fun row => List.length row = List.length test_instance) reference ->
      List.length reference_labels = List.length reference ->
      reference <> [] ->
      (1 <= K)%Z ->
      exists found x,
        get_neighbours reference reference_labels test_instance K = Ok found /\
        get_response label_eq_dec (labels found) = Ok x /\
        classify label_eq_dec reference reference_labels test_instance K = Ok x)) /\
  (forall AS : ArgSort,
     @get_neighbours AS Z [[2; 2; 2]; [4; 4; 4]]%R [0; 1]%Z [5; 5; 5]%R 1 =
       Ok {| data := [[4; 4; 4]]%R; labels := [1]%Z |} /\
     @classify Z Z.eq_dec AS [[2; 2; 2]; [4; 4; 4]]%R [0; 1]%Z [5; 5; 5]%R 1 =
       Ok 1%Z).
Proof.
  split.
  - intros AS label label_eq_dec reference reference_labels test_instance K.
    split; [reflexivity|].
    intros Hdim Hlab Hne HK.
    destruct (some_label _ Hlab Hne) as [d _].
    assert (H0 : (0 <= K)%Z) by lia.
    pose proof (@get_neighbours_found AS label reference reference_labels
                  test_instance K Hdim Hlab Hne H0 d) as Hfound.
    destruct (@found_lengths AS label reference reference_labels test_instance K d)
      as [_ Hlen].
    set (found := {| data := _; labels := _ |}) in Hfound.
    destruct (@get_response_nonempty _ label_eq_dec (labels found)) as (x & Hx & _).
    { intros Hnil. unfold found in Hnil. cbn [labels] in Hnil.
      rewrite Hnil in Hlen. simpl in Hlen.
      destruct reference; [contradiction|]. simpl in Hlen. lia. }
    exists found, x. split; [exact Hfound|]. split; [exact Hx|].
    unfold classify. rewrite Hfound. exact Hx.
  - intros AS.
    assert (Hfound :
      @get_neighbours AS Z [[2; 2; 2]; [4; 4; 4]]%R [0; 1]%Z [5; 5; 5]%R 1 =
        Ok {| data := [[4; 4; 4]]%R; labels := [1]%Z |}).
    { rewrite (@get_neighbours_found AS Z [[2; 2; 2]; [4; 4; 4]]%R [0; 1]%Z
                 [5; 5; 5]%R 1) with (d := 0%Z);
        [|repeat constructor|reflexivity|discriminate|lia].
      unfold sorted_indices. cbn [map].
      rewrite argsort_two_descending; [reflexivity|].
      apply sqrt_lt_1_alt. split; [apply sum_sq_diff_nonneg|].
      unfold sum_sq_diff. cbn [combine map fold_right fst snd]. lra. }
    split; [exact Hfound|].
    unfold classify. rewrite Hfound. reflexivity.
Qed.

Lemma classify_votes_on_found_labels_witness :
  exists found x,
    @get_neighbours stable_argsort Z
      [[1; 1; 1]; [1; 3; 5]; [7; 5; 4]; [9; 5; 3]]%R [1; 2; 1; 2]%Z
      [4; 4; 4]%R 1 = Ok found /\
    get_response Z.eq_dec (labels found) = Ok x /\
    @classify Z Z.eq_dec stable_argsort
      [[1; 1; 1]; [1; 3; 5]; [7; 5; 4]; [9; 5; 3]]%R [1; 2; 1; 2]%Z
      [4; 4; 4]%R 1 = Ok x.
Proof.
  apply (proj2 (proj1 classify_votes_on_found_labels stable_argsort Z Z.eq_dec
           [[1; 1; 1]; [1; 3; 5]; [7; 5; 4]; [9; 5; 3]]%R [1; 2; 1; 2]%Z
           [4; 4; 4]%R 1%Z)).
  - repeat constructor.
  - reflexivity.
  - discriminate.
  - lia.
Defined.

(** * Further properties of the four functions *)

(** ** The distance as a metric *)

Lemma sum_sq_diff_sym (a b : list R) : sum_sq_diff a b = sum_sq_diff b a.
Proof.
  unfold sum_sq_diff. revert b.
  induction a as [|x a IH]; intros [|y b]; cbn [combine map fold_right fst snd];
    try reflexivity.
  rewrite IH. ring.
Qed.


(** X1: for two vectors of equal length the distance does not depend on the
    order of the arguments. *)
Theorem euclidean_distance_symmetric (a b : list R) :
  List.length a = List.length b ->
  euclidean_distance a b = euclidean_distance b a.
Proof.
  intros Hlen. rewrite !euclidean_distance_cases, Hlen, Nat.leb_refl.
  now rewrite sum_sq_diff_sym.
Qed.

Lemma euclidean_distance_symmetric_witness :
  euclidean_distance [1; 5]%R [4; 1]%R = euclidean_distance [4; 1]%R [1; 5]%R.
Proof.
  apply (euclidean_distance_symmetric [1; 5]%R [4; 1]%R).
  reflexivity.
Defined.







(** ** The neighbours for any K *)

Lemma slice_to_count {A : Type} (xs : list A) (K : Z) :
  slice_to xs K = firstn (slice_count (List.length xs) K) xs /\
  List.length (slice_to xs K) = slice_count (List.length xs) K.
Proof.
  unfold slice_to, slice_count.
  destruct (Z.ltb_spec K 0) as [Hneg|Hpos].
  - split; [reflexivity|]. rewrite length_firstn. lia.
  - destruct (Nat.le_gt_cases (Z.to_nat K) (List.length xs)) as [Hle|Hgt].
    + rewrite Nat.min_l by assumption. split; [reflexivity|].
      rewrite length_firstn. lia.
    + rewrite Nat.min_r by lia.
      rewrite firstn_all, firstn_all2 by lia. now split.
Qed.

Lemma StronglySorted_across {A : Type} (P : A -> A -> Prop) (l1 l2 : list A)
    (x y : A) :
  StronglySorted P (l1 ++ l2) -> In x l1 -> In y l2 -> P x y.
Proof.
  induction l1 as [|z l1 IH]; simpl; intros Hs Hx Hy; [contradiction|].
  inversion Hs as [|? ? Hl Hz]; subst.
  destruct Hx as [<-|Hx]; [|now apply IH].
  rewrite Forall_forall in Hz. apply Hz, in_or_app. now right.
Qed.

(** Only an index past the end makes [xs[idx]] raise, and what it raises is
    IndexError. *)
Lemma take_past_end {A : Type} (xs : list A) (idx : list nat) :
  Exists (fun i => List.length xs <= i) idx -> take xs idx = Raise IndexError.
Proof.
  unfold take. induction idx as [|i idx IH]; intros Hex; [inversion Hex|].
  cbn [mapM]. unfold getitem at 1.
  destruct (nth_error xs i) as [x|] eqn:Hx; [|reflexivity].
  cbn [bind]. rewrite IH; [reflexivity|].
  inversion Hex as [? ? Hi|]; subst; [|assumption].
  apply nth_error_None in Hi. congruence.
Qed.

Section NeighbourSlices.

Context {AS : ArgSort}.
Variable label : Type.
Variable reference : list (list R).
Variable reference_labels : list label.
Variable test_instance : list R.
Variable K : Z.

Hypothesis matching_dimension :
  Forall (fun row => List.length row = List.length test_instance) reference.
Hypothesis enough_labels :
  List.length reference <= List.length reference_labels.
Hypothesis some_row : reference <> [].

#[local] Abbreviation sorted_indices := (sorted_indices reference test_instance).
#[local] Abbreviation count := (slice_count (List.length reference) K).

Lemma sorted_indices_in_range :
  Forall (fun i => i < List.length reference) sorted_indices.
Proof.
  apply Forall_forall. intros i Hi.
  apply (Permutation_in _ (@sorted_indices_perm AS reference test_instance)) in Hi.
  unfold range in Hi. apply in_seq in Hi. apply Hi.
Qed.

(** What [get_neighbours] returns, whatever the sign of [K] and however
    many labels follow the last row's. *)
Lemma get_neighbours_found_slice (d : label) :
  get_neighbours reference reference_labels test_instance K =
  Ok {| data := firstn count (map (fun i => nth i reference []) sorted_indices);
        labels := firstn count
                    (map (fun i => nth i reference_labels d) sorted_indices) |}.
Proof.
  unfold get_neighbours.
  rewrite (proj2 (@distances_matching test_instance reference matching_dimension)).
  cbn [bind].
  rewrite column1_map by exact some_row. cbn [bind].
  change (argsort (map (fun row => sqrt (sum_sq_diff test_instance row)) reference))
    with sorted_indices.
  pose proof sorted_indices_in_range as Hbound.
  rewrite (take_nth reference [] Hbound). cbn [bind].
  rewrite (take_nth reference_labels d).
  - cbn [bind].
    rewrite (proj1 (slice_to_count (map (fun i => nth i reference []) sorted_indices) K)).
    rewrite (proj1 (slice_to_count
                      (map (fun i => nth i reference_labels d) sorted_indices) K)).
    now rewrite !length_map, (@sorted_indices_length AS reference test_instance).
  - apply Forall_forall. intros i Hi.
    rewrite Forall_forall in Hbound. apply Hbound in Hi. lia.
Qed.

Lemma sorted_indices_NoDup : NoDup sorted_indices.
Proof.
  apply (Permutation_NoDup
           (Permutation_sym (@sorted_indices_perm AS reference test_instance))).
  apply seq_NoDup.
Qed.

(** The first [count] sorted indices: distinct, in range, and each at most
    as far from the query as any index left out. *)
Lemma nearest_indices :
  NoDup (firstn count sorted_indices) /\
  List.length (firstn count sorted_indices) = count /\
  Forall (fun i => i < List.length reference) (firstn count sorted_indices) /\
  forall i j,
    In i (firstn count sorted_indices) ->
    j < List.length reference ->
    ~ In j (firstn count sorted_indices) ->
    (nth i (map (fun row => sqrt (sum_sq_diff test_instance row)) reference) 0 <=
     nth j (map (fun row => sqrt (sum_sq_diff test_instance row)) reference) 0)%R.
Proof.
  pose proof sorted_indices_NoDup as Hnd.
  pose proof sorted_indices_in_range as Hbound.
  pose proof (@sorted_indices_length AS reference test_instance) as Hlen.
  pose proof (@sorted_indices_perm AS reference test_instance) as Hperm.
  rewrite <- (firstn_skipn count sorted_indices) in Hnd, Hbound.
  split; [exact (NoDup_app_remove_r _ _ Hnd)|].
  split.
  { rewrite length_firstn, Hlen. unfold slice_count.
    destruct (Z.ltb_spec K 0); lia. }
  split; [apply Forall_app in Hbound; tauto|].
  intros i j Hi Hj Hout.
  assert (Hs : StronglySorted
                 (fun i j =>
                    (nth i (map (fun row => sqrt (sum_sq_diff test_instance row))
                              reference) 0 <=
                     nth j (map (fun row => sqrt (sum_sq_diff test_instance row))
                              reference) 0)%R)
                 (firstn count sorted_indices ++ skipn count sorted_indices)).
  { rewrite firstn_skipn.
    apply (@StronglySorted_map_inv _ _
             (fun i => nth i (map (fun row => sqrt (sum_sq_diff test_instance row))
                                reference) 0%R) Rle).
    apply Sorted_StronglySorted; [exact Rle_trans|].
    apply argsort_sorted. }
  refine (@StronglySorted_across _ _ _ _ i j Hs Hi _).
  assert (Hin : In j sorted_indices).
  { apply (Permutation_in _ (Permutation_sym Hperm)).
    unfold range. apply in_seq. lia. }
  rewrite <- (firstn_skipn count sorted_indices) in Hin.
  apply in_app_or in Hin as [Hin|Hin]; [contradiction|exact Hin].
Qed.

End NeighbourSlices.

(** X4: [get_neighbours] accepts every integer [K]: for a reference set with
    at least one row, one label per row and rows of the dimension of the
    query it returns as many rows and labels as the slice [[:K]] keeps of
    them, which is none for [K = 0] and all but the last [-K] for a negative
    [K]. *)
Theorem get_neighbours_any_K (AS : ArgSort) (label : Type)
    (reference : list (list R)) (reference_labels : list label)
    (test_instance : list R) (K : Z) :
  Forall (fun row => List.length row = List.length test_instance) reference ->
  List.length reference_labels = List.length reference ->
  reference <> [] ->
  exists found,
    get_neighbours reference reference_labels test_instance K = Ok found /\
    List.length (data found) = slice_count (List.length reference) K /\
    List.length (labels found) = slice_count (List.length reference) K /\
    (K = 0%Z -> data found = [] /\ labels found = []) /\
    ((K < 0)%Z ->
     List.length (data found) = Z.to_nat (Z.of_nat (List.length reference) + K)).
Proof.
  intros Hdim Hlab Hne.
  destruct (some_label _ Hlab Hne) as [d _].
  assert (Hle : List.length reference <= List.length reference_labels) by lia.
  eexists. split.
  { exact (@get_neighbours_found_slice AS label reference reference_labels
             test_instance K Hdim Hle Hne d). }
  cbn [data labels].
  destruct (@nearest_indices AS label reference reference_labels test_instance K Hle)
    as (_ & Hcount & _).
  rewrite !firstn_map, !length_map. rewrite Hcount.
  repeat split.
  - subst K. reflexivity.
  - subst K. reflexivity.
  - intros Hneg. unfold slice_count.
    destruct (Z.ltb_spec K 0); [reflexivity|lia].
Qed.

Lemma get_neighbours_any_K_witness :
  exists found,
    @get_neighbours stable_argsort Z [[2; 2]; [4; 4]; [0; 2]]%R [0; 1; 0]%Z
      [1; 1]%R (-1) = Ok found /\
    List.length (data found) = slice_count 3 (-1) /\
    List.length (labels found) = slice_count 3 (-1) /\
    ((-1)%Z = 0%Z -> data found = [] /\ labels found = []) /\
    ((-1 < 0)%Z -> List.length (data found) = Z.to_nat (Z.of_nat 3 + -1)).
Proof.
  apply (@get_neighbours_any_K stable_argsort Z [[2; 2]; [4; 4]; [0; 2]]%R
           [0; 1; 0]%Z [1; 1]%R (-1)%Z).
  - repeat constructor.
  - reflexivity.
  - discriminate.
Defined.



(** ** Malformed reference sets *)

Lemma mapM_raises {A B : Type} (f : A -> result B) (xs : list A) (e : exn) :
  (forall x, In x xs -> f x = Raise e \/ exists y, f x = Ok y) ->
  Exists (fun x => f x = Raise e) xs ->
  mapM f xs = Raise e.
Proof.
  induction xs as [|x xs IH]; intros Hall Hex; [inversion Hex|].
  cbn [mapM].
  destruct (Hall x (or_introl eq_refl)) as [Hx|[y Hx]]; rewrite Hx; cbn [bind];
    [reflexivity|].
  rewrite IH; [reflexivity| |].
  - intros x' Hx'. apply Hall. now right.
  - inversion Hex as [? ? Hraise|]; subst; [congruence|assumption].
Qed.

(** X6: a reference row with fewer features than the query makes
    [get_neighbours] raise IndexError, whatever the labels and [K]. *)
Theorem get_neighbours_short_row (AS : ArgSort) (label : Type)
    (reference : list (list R)) (reference_labels : list label)
    (test_instance : list R) (K : Z) :
  Exists (fun row => List.length row < List.length test_instance) reference ->
  get_neighbours reference reference_labels test_instance K = Raise IndexError.
Proof.
  intros Hshort. unfold get_neighbours.
  assert (Hentry : forall row,
            distance_entry test_instance row =
            if List.length test_instance <=? List.length row
            then Ok (row, sqrt (sum_sq_diff test_instance row))
            else Raise IndexError).
  { intros row. unfold distance_entry. rewrite euclidean_distance_cases.
    now destruct (List.length test_instance <=? List.length row). }
  rewrite (@mapM_raises _ _ (distance_entry test_instance) reference IndexError);
    [reflexivity| |].
  - intros row _. rewrite Hentry.
    destruct (List.length test_instance <=? List.length row);
      [right; eexists; reflexivity|now left].
  - apply Exists_exists in Hshort as (row & Hin & Hlt).
    apply Exists_exists. exists row. split; [exact Hin|].
    rewrite Hentry.
    destruct (Nat.leb_spec (List.length test_instance) (List.length row));
      [lia|reflexivity].
Qed.

Lemma get_neighbours_short_row_witness :
  @get_neighbours stable_argsort Z [[2; 2; 2]; [4; 4]]%R [0; 1]%Z [5; 5; 5]%R 1 =
    Raise IndexError.
Proof.
  apply (@get_neighbours_short_row stable_argsort Z [[2; 2; 2]; [4; 4]]%R
           [0; 1]%Z [5; 5; 5]%R 1%Z).
  apply Exists_cons_tl, Exists_cons_hd. simpl. lia.
Defined.

(** X7: with rows of the dimension of the query, fewer labels than rows
    make [get_neighbours] raise IndexError, and labels past the number of
    rows are never read: appending them changes nothing. *)
Theorem get_neighbours_label_count (AS : ArgSort) (label : Type)
    (reference : list (list R)) (reference_labels : list label)
    (test_instance : list R) (K : Z) :
  Forall (fun row => List.length row = List.length test_instance) reference ->
  (List.length reference_labels < List.length reference ->
   get_neighbours reference reference_labels test_instance K = Raise IndexError) /\
  (List.length reference_labels = List.length reference ->
   forall surplus : list label,
     get_neighbours reference (reference_labels ++ surplus) test_instance K =
     get_neighbours reference reference_labels test_instance K).
Proof.
  intros Hdim. split.
  - intros Hfew.
    assert (Hne : reference <> []) by (destruct reference; [simpl in Hfew; lia|discriminate]).
    unfold get_neighbours.
    rewrite (proj2 (@distances_matching test_instance reference Hdim)).
    cbn [bind]. rewrite column1_map by exact Hne. cbn [bind].
    change (argsort (map (fun row => sqrt (sum_sq_diff test_instance row)) reference))
      with (sorted_indices reference test_instance).
    rewrite (take_nth reference [] (@sorted_indices_in_range AS reference test_instance)).
    cbn [bind]. rewrite take_past_end; [reflexivity|].
    apply Exists_exists. exists (List.length reference - 1). split; [|lia].
    apply (Permutation_in _
             (Permutation_sym (@sorted_indices_perm AS reference test_instance))).
    unfold range. apply in_seq.
    destruct reference; [contradiction|simpl; lia].
  - intros Hlab surplus.
    destruct reference as [|row rows] eqn:Href.
    + now rewrite !get_neighbours_empty.
    + rewrite <- Href in *.
      assert (Hne : reference <> []) by (rewrite Href; discriminate).
      destruct (some_label _ Hlab Hne) as [d _].
      rewrite (@get_neighbours_found_slice AS label reference
                 (reference_labels ++ surplus) test_instance K Hdim)
        with (d := d); [|rewrite length_app; lia|exact Hne].
      rewrite (@get_neighbours_found_slice AS label reference reference_labels
                 test_instance K Hdim) with (d := d); [|lia|exact Hne].
      do 3 f_equal. apply map_ext_in. intros i Hi.
      apply app_nth1.
      pose proof (@sorted_indices_in_range AS reference test_instance) as Hbound.
      rewrite Forall_forall in Hbound. apply Hbound in Hi. lia.
Qed.

Lemma get_neighbours_label_count_witness :
  @get_neighbours stable_argsort Z [[2; 2]; [4; 4]]%R [0]%Z [1; 1]%R 1 =
    Raise IndexError /\
  @get_neighbours stable_argsort Z [[2; 2]; [4; 4]]%R ([0; 1] ++ [7; 7])%Z
    [1; 1]%R 1 =
  @get_neighbours stable_argsort Z [[2; 2]; [4; 4]]%R [0; 1]%Z [1; 1]%R 1.
Proof.
  split.
  - apply (proj1 (@get_neighbours_label_count stable_argsort Z [[2; 2]; [4; 4]]%R
                    [0]%Z [1; 1]%R 1%Z ltac:(repeat constructor))).
    simpl. lia.
  - apply (proj2 (@get_neighbours_label_count stable_argsort Z [[2; 2]; [4; 4]]%R
                    [0; 1]%Z [1; 1]%R 1%Z ltac:(repeat constructor))).
    reflexivity.
Defined.

(** ** Classifying with no or with one neighbour *)


(** X8: when the slice [[:K]] keeps no neighbour, which is so for [K = 0]
    and for [K <= -len(reference)], classifying raises the IndexError of
    the vote on no label. *)
Theorem classify_no_neighbour (AS : ArgSort) (label : Type)
    (label_eq_dec : forall x y : label, {x = y} + {x <> y})
    (reference : list (list R)) (reference_labels : list label)
    (test_instance : list R) (K : Z) :
  Forall (fun row => List.length row = List.length test_instance) reference ->
  List.length reference_labels = List.length reference ->
  reference <> [] ->
  (K = 0 \/ K <= - Z.of_nat (List.length reference))%Z ->
  get_neighbours reference reference_labels test_instance K =
    Ok {| data := []; labels := [] |} /\
  classify label_eq_dec reference reference_labels test_instance K =
    Raise IndexError.
Proof.
  intros Hdim Hlab Hne HK.
  destruct (some_label _ Hlab Hne) as [d _].
  assert (Hle : List.length reference <= List.length reference_labels) by lia.
  pose proof (@get_neighbours_found_slice AS label reference reference_labels
                test_instance K Hdim Hle Hne d) as Hfound.
  assert (Hcount : slice_count (List.length reference) K = 0).
  { unfold slice_count. destruct (Z.ltb_spec K 0); lia. }
  rewrite Hcount in Hfound. cbn [firstn] in Hfound.
  split; [exact Hfound|].
  unfold classify. rewrite Hfound. reflexivity.
Qed.

Lemma classify_no_neighbour_witness :
  @get_neighbours stable_argsort Z [[2; 2; 2]; [4; 4; 4]]%R [0; 1]%Z
    [5; 5; 5]%R 0 = Ok {| data := []; labels := [] |} /\
  @classify Z Z.eq_dec stable_argsort [[2; 2; 2]; [4; 4; 4]]%R [0; 1]%Z
    [5; 5; 5]%R 0 = Raise IndexError.
Proof.
  apply (@classify_no_neighbour stable_argsort Z Z.eq_dec
           [[2; 2; 2]; [4; 4; 4]]%R [0; 1]%Z [5; 5; 5]%R 0%Z).
  - repeat constructor.
  - reflexivity.
  - discriminate.
  - left. reflexivity.
Defined.



(** ** The votes and the extreme scores *)

Section VoteFacts.

Variable label : Type.
Variable label_eq_dec : forall x y : label, {x = y} + {x <> y}.

#[local] Abbreviation dict_get := (dict_get label_eq_dec).
#[local] Abbreviation dict_set := (dict_set label_eq_dec).
#[local] Abbreviation tally := (tally label_eq_dec).
#[local] Abbreviation matches := (matches label_eq_dec).

Lemma dict_set_total (d : dict label) (k : label) (n : nat) :
  list_sum (map snd (dict_set d k n)) +
    match dict_get d k with Some v => v | None => 0 end =
  list_sum (map snd d) + n.
Proof.
  induction d as [|[k0 v0] d IH]; simpl; [lia|].
  destruct (label_eq_dec k k0); simpl; lia.
Qed.

Lemma tally_total (l : list label) :
  list_sum (map snd (tally l)) = List.length l.
Proof.
  induction l as [|x l IH] using rev_ind; [reflexivity|].
  rewrite tally_snoc, length_app. cbn [List.length]. unfold vote.
  destruct (dict_get (tally l) x) as [n|] eqn:Hget.
  - pose proof (dict_set_total (tally l) x (n + 1)) as Hset.
    rewrite Hget in Hset. lia.
  - pose proof (dict_set_total (tally l) x 1) as Hset.
    rewrite Hget in Hset. lia.
Qed.

Lemma matches_cons (x y : label) (t p : list label) :
  matches (x :: t) (y :: p) =
  (if label_eq_dec x y then 1 else 0) + matches t p.
Proof.
  unfold matches. cbn [combine filter fst snd].
  now destruct (label_eq_dec x y).
Qed.

Lemma matches_all (t p : list label) :
  List.length t = List.length p ->
  matches t p = List.length t <-> t = p.
Proof.
  revert p. induction t as [|x t IH]; intros [|y p] Hlen; try discriminate.
  - split; reflexivity.
  - injection Hlen as Hlen. rewrite matches_cons. cbn [List.length].
    pose proof (matches_le_length label_eq_dec t p) as Hle.
    specialize (IH p Hlen).
    destruct (label_eq_dec x y) as [->|Hxy]; split.
    + intros H. f_equal. apply IH. lia.
    + intros H. injection H as ->. simpl. f_equal. now apply IH.
    + intros H. lia.
    + intros H. injection H as -> ->. contradiction.
Qed.

Lemma matches_none (t p : list label) :
  matches t p = 0 <-> Forall (fun q => fst q <> snd q) (combine t p).
Proof.
  revert p. induction t as [|x t IH]; intros [|y p]; cbn [combine];
    try (split; [constructor|reflexivity]).
  rewrite matches_cons. specialize (IH p).
  destruct (label_eq_dec x y) as [->|Hxy]; split.
  - discriminate.
  - intros H. inversion H as [|? ? Hhd _]. now contradiction Hhd.
  - intros H. constructor; [exact Hxy|]. apply IH. lia.
  - intros H. inversion H; subst. simpl. now apply IH.
Qed.

End VoteFacts.

Lemma percentage_extremes (c n : nat) :
  0 < n ->
  ((inject_Z (Z.of_nat c) / inject_Z (Z.of_nat n) * 100 == 100)%Q <-> c = n) /\
  ((inject_Z (Z.of_nat c) / inject_Z (Z.of_nat n) * 100 == 0)%Q <-> c = 0).
Proof.
  intros Hn. destruct n as [|n]; [lia|].
  unfold Qeq, Qdiv, Qmult, Qinv, inject_Z.
  cbn [Z.of_nat Qnum Qden].
  rewrite !Z.mul_1_r, !Pos.mul_1_l, !Pos.mul_1_r.
  cbn [Z.mul]. split; split; lia.
Qed.

(** X10: the dict built by the voting loop holds one vote per neighbour:
    its counts add up to the number of neighbours, no label is a key twice,
    and a label is a key with count [v] exactly when it occurs [v > 0] times
    among the neighbours. *)
Theorem tally_counts_every_vote (label : Type)
    (label_eq_dec : forall x y : label, {x = y} + {x <> y})
    (neighbours : list label) :
  list_sum (map snd (tally label_eq_dec neighbours)) = List.length neighbours /\
  NoDup (keys (tally label_eq_dec neighbours)) /\
  forall (k : label) (v : nat),
    In (k, v) (tally label_eq_dec neighbours) <->
    v = occurrences label_eq_dec k neighbours /\ In k neighbours.
Proof.
  split; [apply tally_total|]. split; [apply keys_tally_NoDup|].
  intros k v. apply In_tally.
Qed.

(** X11: for a non-empty test set and as many predictions, the score is 100
    exactly when every prediction equals its true label, and 0 exactly when
    no prediction does. *)
Theorem get_accuracy_extremes (label : Type)
    (label_eq_dec : forall x y : label, {x = y} + {x <> y})
    (test_set predictions : list label) :
  List.length test_set = List.length predictions ->
  test_set <> [] ->
  exists v : Q,
    get_accuracy label_eq_dec test_set predictions = Ok v /\
    ((v == 100)%Q <-> test_set = predictions) /\
    ((v == 0)%Q <-> Forall (fun q => fst q <> snd q) (combine test_set predictions)).
Proof.
  intros Hlen Hne.
  exists (inject_Z (Z.of_nat (matches label_eq_dec test_set predictions)) /
          inject_Z (Z.of_nat (List.length test_set)) * 100)%Q.
  split.
  - rewrite get_accuracy_cases. rewrite <- Hlen, Nat.leb_refl.
    destruct test_set; [contradiction|reflexivity].
  - assert (Hpos : 0 < List.length test_set)
      by (destruct test_set; [contradiction|simpl; lia]).
    destruct (percentage_extremes (matches label_eq_dec test_set predictions) Hpos)
      as [Hfull Hzero].
    rewrite Hfull, Hzero.
    split; [now apply matches_all|apply matches_none].
Qed.

Lemma get_accuracy_extremes_witness :
  exists v : Q,
    get_accuracy string_dec ["a"; "b"]%string ["b"; "a"]%string = Ok v /\
    ((v == 100)%Q <-> ["a"; "b"]%string = ["b"; "a"]%string) /\
    ((v == 0)%Q <->
     Forall (fun q => fst q <> snd q)
       (combine ["a"; "b"]%string ["b"; "a"]%string)).
Proof.
  apply (@get_accuracy_extremes string string_dec ["a"; "b"]%string
           ["b"; "a"]%string).
  - reflexivity.
  - discriminate.
Defined.

(** * Accuracy against the number of neighbours *)

Lemma mapM_all_ok {A B : Type} (f : A -> result B) (xs : list A) :
  (forall x, In x xs -> exists y, f x = Ok y) ->
  exists ys, mapM f xs = Ok ys /\ Forall2 (fun x y => f x = Ok y) xs ys.
Proof.
  induction xs as [|x xs IH]; intros Hall.
  - exists []. split; [reflexivity|constructor].
  - destruct (Hall x (or_introl eq_refl)) as [y Hy].
    destruct IH as (ys & Hys & Hall2); [intros; apply Hall; now right|].
    exists (y :: ys). cbn [mapM]. rewrite Hy, Hys.
    split; [reflexivity|now constructor].
Qed.

(** The neighbour counts [range(1, upperLim, 4)]. *)
Lemma range_step_from_one_by_four (upperLim k : Z) :
  In k (range_step 1 upperLim 4) <->
  (1 <= k < upperLim)%Z /\ (k mod 4 = 1)%Z.
Proof.
  unfold range_step. rewrite in_map_iff. split.
  - intros (i & <- & Hi). apply in_seq in Hi.
    assert (Hlt : (Z.of_nat i < (upperLim - 1 + 4 - 1) / 4)%Z) by lia.
    split; [|rewrite Z_mod_plus_full; reflexivity].
    Z.div_mod_to_equations. lia.
  - intros [Hk Hmod]. exists (Z.to_nat (k / 4)). split.
    + Z.div_mod_to_equations. lia.
    + apply in_seq. Z.div_mod_to_equations. lia.
Qed.

Lemma range_step_length (upperLim : Z) :
  List.length (range_step 1 upperLim 4) = Z.to_nat ((upperLim + 2) / 4).
Proof.
  unfold range_step. rewrite length_map, length_seq.
  do 2 f_equal. lia.
Qed.

(** X12: when scikit-learn raises nothing, [plot_vector] returns one row
    per neighbour count [k = 1, 5, 9, ...] below [upperLim], in this order
    and for no other [k]: [(upperLim + 2) // 4] rows, each holding [k] and
    one hundred times the score for that [k]. *)
Theorem plot_vector_rows (features targets weighting : Type)
    (knn_score :
       features -> targets -> features -> targets -> weighting -> Z -> result R)
    (train_X : features) (train_Y : targets) (test_X : features)
    (test_Y : targets) (weights : weighting) (upperLim : Z) :
  (forall k, In k (range_step 1 upperLim 4) ->
             exists accuracy,
               knn_score train_X train_Y test_X test_Y weights k = Ok accuracy) ->
  exists results,
    plot_vector knn_score train_X train_Y test_X test_Y weights upperLim =
      Ok results /\
    map fst results = range_step 1 upperLim 4 /\
    List.length results = Z.to_nat ((upperLim + 2) / 4) /\
    (forall k, In k (map fst results) <->
               (1 <= k < upperLim)%Z /\ (k mod 4 = 1)%Z) /\
    (forall k percent,
       In (k, percent) results ->
       exists accuracy,
         knn_score train_X train_Y test_X test_Y weights k = Ok accuracy /\
         percent = (accuracy * 100)%R).
Proof.
  intros Hscore. unfold plot_vector.
  destruct (@mapM_all_ok _ _
              (fun k =>
                 accuracy <- knn_score train_X train_Y test_X test_Y weights k ;;
                 Ok (k, (accuracy * 100)%R))
              (range_step 1 upperLim 4))
    as (results & Hresults & Hrows).
  { intros k Hk. destruct (Hscore k Hk) as [accuracy Hacc].
    rewrite Hacc. now eexists. }
  exists results. split; [exact Hresults|].
  assert (Hfst : map fst results = range_step 1 upperLim 4).
  { clear Hresults Hscore.
    induction Hrows as [|k row ks rows Hrow _ IH]; [reflexivity|].
    cbn [map]. rewrite IH. f_equal.
    destruct (knn_score _ _ _ _ _ k); cbn [bind] in Hrow; [|discriminate].
    now inversion Hrow. }
  split; [exact Hfst|].
  split; [rewrite <- (length_map fst), Hfst; apply range_step_length|].
  split; [intros k; rewrite Hfst; apply range_step_from_one_by_four|].
  intros k percent Hin. clear Hresults Hscore Hfst.
  induction Hrows as [|k' row ks rows Hrow _ IH]; [contradiction|].
  destruct Hin as [->|Hin]; [|now apply IH].
  destruct (knn_score _ _ _ _ _ k') as [accuracy|] eqn:Hacc;
    cbn [bind] in Hrow; [|discriminate].
  inversion Hrow; subst. now exists accuracy.
Qed.

Lemma plot_vector_rows_witness :
  exists results,
    plot_vector (fun (_ _ _ _ _ : unit) (k : Z) => Ok (/ IZR k)%R)
      tt tt tt tt tt 100 = Ok results /\
    map fst results = range_step 1 100 4 /\
    List.length results = Z.to_nat ((100 + 2) / 4) /\
    (forall k, In k (map fst results) <->
               (1 <= k < 100)%Z /\ (k mod 4 = 1)%Z) /\
    (forall k percent,
       In (k, percent) results ->
       exists accuracy,
         Ok (/ IZR k)%R = Ok accuracy /\ percent = (accuracy * 100)%R).
Proof.
  apply (@plot_vector_rows unit unit unit
           (fun (_ _ _ _ _ : unit) (k : Z) => Ok (/ IZR k)%R) tt tt tt tt tt 100%Z).
  intros k _. now eexists.
Defined.

(** * The elbow of k-means *)

Lemma list_set_cons {A : Type} (x : A) (xs : list A) (j : nat) (v : A) :
  list_set (x :: xs) (S j) v = x :: list_set xs j v.
Proof. reflexivity. Qed.

Lemma list_set_length {A : Type} (xs : list A) (j : nat) (v : A) :
  j < List.length xs -> List.length (list_set xs j v) = List.length xs.
Proof.
  revert j. induction xs as [|x xs IH]; intros [|j] Hj; simpl in Hj; try lia.
  - reflexivity.
  - rewrite list_set_cons. simpl. rewrite IH; lia.
Qed.

Lemma nth_list_set {A : Type} (xs : list A) (j i : nat) (v d : A) :
  j < List.length xs ->
  nth i (list_set xs j v) d = if i =? j then v else nth i xs d.
Proof.
  revert j i. induction xs as [|x xs IH]; intros [|j] [|i] Hj; simpl in Hj;
    try lia; try reflexivity.
  rewrite list_set_cons. cbn [nth]. rewrite IH by lia. reflexivity.
Qed.

Lemma list_set_twice {A : Type} (xs : list A) (j : nat) (v w : A) :
  j < List.length xs -> list_set (list_set xs j v) j w = list_set xs j w.
Proof.
  revert j. induction xs as [|x xs IH]; intros [|j] Hj; simpl in Hj; try lia.
  - reflexivity.
  - rewrite !list_set_cons. now rewrite IH by lia.
Qed.

Lemma setitem_in_range {A : Type} (xs : list A) (j : nat) (v : A) :
  j < List.length xs -> setitem xs j v = Ok (list_set xs j v).
Proof.
  intros Hj. unfold setitem.
  destruct (Nat.ltb_spec j (List.length xs)); [reflexivity|lia].
Qed.

Lemma getitem_list_set {A : Type} (xs : list A) (j : nat) (v : A) :
  j < List.length xs -> getitem (list_set xs j v) j = Ok v.
Proof.
  intros Hj.
  rewrite (getitem_nth _ v) by (rewrite list_set_length; assumption).
  now rewrite nth_list_set, Nat.eqb_refl.
Qed.

Lemma getitem_Some {A : Type} (xs : list A) (i : nat) (x : A) :
  nth_error xs i = Some x -> getitem xs i = Ok x.
Proof. intros H. unfold getitem. now rewrite H. Qed.

(** The three turns of the loop over the features. *)
Lemma feature_loop_three (X_scaled centroids : list (list R)) (j cluster : nat)
    (ed : list R) (x0 x1 x2 c0 c1 c2 : R) (xs cs : list R) :
  j < List.length ed ->
  nth_error X_scaled j = Some (x0 :: x1 :: x2 :: xs) ->
  nth_error centroids cluster = Some (c0 :: c1 :: c2 :: cs) ->
  feature_loop X_scaled centroids j cluster (range 3) ed =
  Ok (list_set ed j
        (nth j ed 0 + (x0 - c0) ^ 2 + (x1 - c1) ^ 2 + (x2 - c2) ^ 2)%R).
Proof.
  intros Hj Hrow Hcentroid.
  unfold range. cbn [seq feature_loop].
  rewrite (getitem_nth ed 0%R Hj), (getitem_Some _ _ Hrow),
    (getitem_Some _ _ Hcentroid).
  cbn [bind getitem nth_error].
  rewrite setitem_in_range by assumption. cbn [bind].
  rewrite getitem_list_set by assumption. cbn [bind].
  rewrite setitem_in_range by (rewrite list_set_length; assumption).
  cbn [bind]. rewrite list_set_twice by assumption.
  rewrite getitem_list_set by assumption. cbn [bind].
  rewrite setitem_in_range by (rewrite list_set_length; assumption).
  cbn [bind]. now rewrite list_set_twice by assumption.
Qed.

Lemma at_least_three (row : list R) :
  3 <= List.length row ->
  exists x0 x1 x2 xs, row = x0 :: x1 :: x2 :: xs.
Proof.
  destruct row as [|x0 [|x1 [|x2 xs]]]; simpl; intros H; try lia.
  now exists x0, x1, x2, xs.
Qed.

Section ElbowFacts.

Variable X_scaled : list (list R).
Variable labels : list nat.
Variable centroids : list (list R).

Hypothesis one_cluster_per_point : List.length labels = List.length X_scaled.
Hypothesis clusters_in_range :
  Forall (fun cluster => cluster < List.length centroids) labels.
Hypothesis three_features :
  Forall (fun row => 3 <= List.length row) X_scaled.
Hypothesis three_coordinates :
  Forall (fun centroid => 3 <= List.length centroid) centroids.

(** The distance of point [j] to the centre of its cluster, over the first
    three features. *)
Definition to_centroid (j : nat) : R :=
  sqrt (sum_sq_diff (firstn 3 (nth j X_scaled []))
          (firstn 3 (nth (nth j labels 0) centroids []))).

Lemma point_step_sets (ed : list R) (j : nat) :
  j < List.length X_scaled -> List.length ed = List.length X_scaled ->
  point_step X_scaled labels centroids ed j = Ok (list_set ed j (to_centroid j)).
Proof.
  intros Hj Hed.
  assert (Hjed : j < List.length ed) by lia.
  assert (Hcluster : nth j labels 0 < List.length centroids).
  { rewrite Forall_forall in clusters_in_range.
    apply clusters_in_range, nth_In. lia. }
  rewrite Forall_forall in three_features, three_coordinates.
  destruct (@at_least_three (nth j X_scaled []))
    as (x0 & x1 & x2 & xs & Hrow); [apply three_features, nth_In; lia|].
  destruct (@at_least_three (nth (nth j labels 0) centroids []))
    as (c0 & c1 & c2 & cs & Hcentroid);
    [apply three_coordinates, nth_In; exact Hcluster|].
  unfold point_step.
  rewrite setitem_in_range by assumption. cbn [bind].
  rewrite (getitem_nth labels 0) by lia. cbn [bind].
  rewrite (@feature_loop_three X_scaled centroids j (nth j labels 0)
             (list_set ed j 0%R) x0 x1 x2 c0 c1 c2 xs cs).
  - cbn [bind]. rewrite list_set_twice by assumption.
    rewrite getitem_list_set by assumption. cbn [bind].
    rewrite setitem_in_range by (rewrite list_set_length; assumption).
    rewrite list_set_twice by assumption.
    do 2 f_equal. unfold to_centroid. rewrite Hrow, Hcentroid.
    rewrite nth_list_set, Nat.eqb_refl by assumption.
    f_equal. unfold sum_sq_diff. cbn [firstn combine map fold_right fst snd].
    ring.
  - rewrite list_set_length; assumption.
  - rewrite <- Hrow. apply nth_error_nth'. lia.
  - rewrite <- Hcentroid. apply nth_error_nth'. exact Hcluster.
Qed.

(** The loop over the points [s, s + m): it writes their distances and
    leaves the other entries as they were. *)
Lemma points_loop_writes (m s : nat) (ed : list R) :
  s + m <= List.length X_scaled -> List.length ed = List.length X_scaled ->
  exists ed',
    points_loop X_scaled labels centroids (seq s m) ed = Ok ed' /\
    List.length ed' = List.length X_scaled /\
    forall i, nth i ed' 0%R =
              if (s <=? i) && (i <? s + m) then to_centroid i else nth i ed 0%R.
Proof.
  revert s ed. induction m as [|m IH]; intros s ed Hs Hed.
  - exists ed. split; [reflexivity|]. split; [exact Hed|].
    intros i. destruct (Nat.leb_spec s i); destruct (Nat.ltb_spec i (s + 0));
      simpl; try reflexivity; lia.
  - cbn [seq points_loop]. rewrite point_step_sets by lia. cbn [bind].
    destruct (IH (S s) (list_set ed s (to_centroid s))) as (ed' & Hloop & Hlen & Hnth);
      [lia|rewrite list_set_length; lia|].
    exists ed'. split; [exact Hloop|]. split; [exact Hlen|].
    intros i. rewrite Hnth, nth_list_set by lia.
    destruct (Nat.leb_spec (S s) i); destruct (Nat.ltb_spec i (S s + m));
      destruct (Nat.leb_spec s i); destruct (Nat.ltb_spec i (s + S m));
      destruct (Nat.eqb_spec i s); simpl; subst; try reflexivity; lia.
Qed.

End ElbowFacts.

(** X13: after the loop over the points, entry [j] of [euclidean_distances]
    is the Euclidean distance between the first three features of point [j]
    and the first three coordinates of the centre of its cluster, whatever
    the list held before and whatever the other features are.  It needs
    one cluster index per point, each naming a centre, three features or
    more in every point and centre, and a list as long as the data. *)
Theorem distances_to_centroids_three_features (X_scaled : list (list R))
    (labels : list nat) (centroids : list (list R))
    (euclidean_distances : list R) :
  List.length euclidean_distances = List.length X_scaled ->
  List.length labels = List.length X_scaled ->
  Forall (fun cluster => cluster < List.length centroids) labels ->
  Forall (fun row => 3 <= List.length row) X_scaled ->
  Forall (fun centroid => 3 <= List.length centroid) centroids ->
  exists dists,
    distances_to_centroids X_scaled labels centroids euclidean_distances =
      Ok dists /\
    List.length dists = List.length X_scaled /\
    forall j,
      j < List.length X_scaled ->
      euclidean_distance (firstn 3 (nth j X_scaled []))
        (firstn 3 (nth (nth j labels 0) centroids [])) = Ok (nth j dists 0%R).
Proof.
  intros Hed Hlabels Hclusters Hrows Hcentroids.
  destruct (@points_loop_writes X_scaled labels centroids Hlabels Hclusters
              Hrows Hcentroids (List.length X_scaled) 0 euclidean_distances)
    as (dists & Hloop & Hlen & Hnth); [lia|exact Hed|].
  exists dists. split; [exact Hloop|]. split; [exact Hlen|].
  intros j Hj. rewrite Hnth.
  destruct (Nat.leb_spec 0 j); [|lia].
  destruct (Nat.ltb_spec j (0 + List.length X_scaled)); [|lia].
  cbn [andb]. rewrite euclidean_distance_cases.
  rewrite Forall_forall in Hrows, Hclusters, Hcentroids.
  assert (H3x : List.length (firstn 3 (nth j X_scaled [])) = 3).
  { rewrite length_firstn. apply Nat.min_l, Hrows, nth_In. exact Hj. }
  assert (H3c : List.length (firstn 3 (nth (nth j labels 0) centroids [])) = 3).
  { rewrite length_firstn. apply Nat.min_l, Hcentroids, nth_In.
    apply Hclusters, nth_In. lia. }
  rewrite H3x, H3c. reflexivity.
Qed.

Lemma distances_to_centroids_three_features_witness :
  exists dists,
    distances_to_centroids
      [[0; 0; 0; 9]; [1; 2; 2; 8]; [5; 5; 5; 7]]%R [0; 0; 1]
      [[0; 0; 0; 1]; [5; 5; 4; 1]]%R [7; 7; 7]%R = Ok dists /\
    List.length dists = 3 /\
    forall j,
      j < 3 ->
      euclidean_distance
        (firstn 3 (nth j [[0; 0; 0; 9]; [1; 2; 2; 8]; [5; 5; 5; 7]]%R []))
        (firstn 3 (nth (nth j [0; 0; 1] 0) [[0; 0; 0; 1]; [5; 5; 4; 1]]%R [])) =
      Ok (nth j dists 0%R).
Proof.
  apply (@distances_to_centroids_three_features
           [[0; 0; 0; 9]; [1; 2; 2; 8]; [5; 5; 5; 7]]%R [0; 0; 1]
           [[0; 0; 0; 1]; [5; 5; 4; 1]]%R [7; 7; 7]%R).
  - reflexivity.
  - reflexivity.
  - repeat constructor.
  - repeat constructor.
  - repeat constructor.
Defined.

(** Indexing raises nothing but IndexError. *)
Lemma getitem_Ok_inv {A : Type} (xs : list A) (i : nat) (x : A) :
  getitem xs i = Ok x -> nth_error xs i = Some x.
Proof.
  unfold getitem. destruct (nth_error xs i); intros H; now inversion H.
Qed.

Lemma getitem_Raise_inv {A : Type} (xs : list A) (i : nat) (e : exn) :
  getitem xs i = Raise e -> e = IndexError.
Proof.
  unfold getitem. destruct (nth_error xs i); intros H; now inversion H.
Qed.

Lemma setitem_Raise_inv {A : Type} (xs : list A) (j : nat) (v : A) (e : exn) :
  setitem xs j v = Raise e -> e = IndexError.
Proof.
  unfold setitem. destruct (j <? List.length xs); intros H; now inversion H.
Qed.

(** Case analysis on the first call of a sequence of calls. *)
Ltac first_call H :=
  match type of H with
  | bind ?m _ = _ =>
      let E := fresh "Hcall" in
      destruct m eqn:E; cbn [bind] in H
  end.

Ltac raised_IndexError :=
  match goal with
  | H : Raise ?e = Raise _ |- _ => inversion H; subst; clear H
  | H : getitem _ _ = Raise _ |- _ => apply getitem_Raise_inv in H
  | H : setitem _ _ _ = Raise _ |- _ => apply setitem_Raise_inv in H
  end.

Lemma feature_loop_Raise_inv (X_scaled centroids : list (list R))
    (j cluster : nat) (ks : list nat) (ed : list R) (e : exn) :
  feature_loop X_scaled centroids j cluster ks ed = Raise e -> e = IndexError.
Proof.
  revert ed. induction ks as [|k ks IH]; intros ed H; cbn [feature_loop] in H;
    [discriminate|].
  repeat (first_call H; [|repeat raised_IndexError; congruence]).
  now apply IH in H.
Qed.

Lemma point_step_Raise_inv (X_scaled : list (list R)) (labels : list nat)
    (centroids : list (list R)) (ed : list R) (j : nat) (e : exn) :
  point_step X_scaled labels centroids ed j = Raise e -> e = IndexError.
Proof.
  unfold point_step. intros H.
  first_call H; [|repeat raised_IndexError; congruence].
  first_call H; [|repeat raised_IndexError; congruence].
  first_call H; [|inversion H; subst; now apply feature_loop_Raise_inv in Hcall1].
  first_call H; [|repeat raised_IndexError; congruence].
  now apply setitem_Raise_inv in H.
Qed.

Lemma points_loop_Raise_inv (X_scaled : list (list R)) (labels : list nat)
    (centroids : list (list R)) (js : list nat) (ed : list R) (e : exn) :
  points_loop X_scaled labels centroids js ed = Raise e -> e = IndexError.
Proof.
  revert ed. induction js as [|j js IH]; intros ed H; cbn [points_loop] in H;
    [discriminate|].
  first_call H; [now apply IH in H|].
  inversion H; subst. now apply point_step_Raise_inv in Hcall.
Qed.

(** A loop over the features that returns has read each of them. *)
Lemma feature_loop_Ok_inv (X_scaled centroids : list (list R))
    (j cluster : nat) (ks : list nat) (ed ed' : list R) :
  feature_loop X_scaled centroids j cluster ks ed = Ok ed' ->
  forall k, In k ks ->
    exists row, nth_error X_scaled j = Some row /\ k < List.length row.
Proof.
  revert ed. induction ks as [|k0 ks IH]; intros ed H k Hk; [contradiction|].
  cbn [feature_loop] in H.
  destruct (getitem ed j) as [old|]; cbn [bind] in H; [|discriminate].
  destruct (getitem X_scaled j) as [row|] eqn:Hrow; cbn [bind] in H;
    [|discriminate].
  destruct (getitem row k0) as [x|] eqn:Hx; cbn [bind] in H; [|discriminate].
  destruct (getitem centroids cluster) as [centroid|]; cbn [bind] in H;
    [|discriminate].
  destruct (getitem centroid k0) as [c|]; cbn [bind] in H; [|discriminate].
  destruct (setitem ed j _) as [ed1|]; cbn [bind] in H; [|discriminate].
  destruct Hk as [<-|Hk]; [|now apply (IH _ H)].
  apply getitem_Ok_inv in Hrow, Hx.
  exists row. split; [exact Hrow|].
  apply nth_error_Some. congruence.
Qed.

(** A turn that returns has read feature 2 of its point. *)
Lemma point_step_Ok_inv (X_scaled : list (list R)) (labels : list nat)
    (centroids : list (list R)) (ed ed' : list R) (j : nat) :
  point_step X_scaled labels centroids ed j = Ok ed' ->
  exists row, nth_error X_scaled j = Some row /\ 3 <= List.length row.
Proof.
  unfold point_step. intros H.
  destruct (setitem ed j 0%R) as [cleared|]; cbn [bind] in H; [|discriminate].
  destruct (getitem labels j) as [cluster|]; cbn [bind] in H; [|discriminate].
  destruct (feature_loop X_scaled centroids j cluster (range 3) cleared)
    as [summed|] eqn:Hloop; cbn [bind] in H; [|discriminate].
  destruct (feature_loop_Ok_inv _ _ _ _ _ _ Hloop 2) as (row & Hrow & Hlen).
  - unfold range. simpl. tauto.
  - exists row. split; [exact Hrow|lia].
Qed.

Lemma points_loop_Ok_inv (X_scaled : list (list R)) (labels : list nat)
    (centroids : list (list R)) (js : list nat) (ed ed' : list R) :
  points_loop X_scaled labels centroids js ed = Ok ed' ->
  forall j, In j js ->
    exists row, nth_error X_scaled j = Some row /\ 3 <= List.length row.
Proof.
  revert ed. induction js as [|j0 js IH]; intros ed H j Hj; [contradiction|].
  cbn [points_loop] in H. first_call H; [|discriminate].
  destruct Hj as [<-|Hj].
  - now apply point_step_Ok_inv in Hcall.
  - now apply (IH _ H).
Qed.

(** X14: a point with fewer than three features makes the loop over the
    points raise IndexError, whatever the clusters, the centres and the
    list of distances are. *)
Theorem distances_to_centroids_short_point (X_scaled : list (list R))
    (labels : list nat) (centroids : list (list R))
    (euclidean_distances : list R) :
  Exists (fun row => List.length row < 3) X_scaled ->
  distances_to_centroids X_scaled labels centroids euclidean_distances =
    Raise IndexError.
Proof.
  intros Hshort. unfold distances_to_centroids.
  destruct (points_loop X_scaled labels centroids
              (range (List.length X_scaled)) euclidean_distances)
    as [ed'|e] eqn:Hloop.
  - exfalso. apply Exists_exists in Hshort as (row & Hin & Hlt).
    apply In_nth_error in Hin as [j Hj].
    assert (Hrange : In j (range (List.length X_scaled))).
    { unfold range. apply in_seq. split; [lia|].
      apply nth_error_Some. congruence. }
    destruct (points_loop_Ok_inv _ _ _ _ _ Hloop j Hrange) as (row' & Hj' & Hlen).
    rewrite Hj in Hj'. inversion Hj'; subst. lia.
  - f_equal. now apply points_loop_Raise_inv in Hloop.
Qed.

Lemma distances_to_centroids_short_point_witness :
  distances_to_centroids [[0; 0; 0]; [1; 2]]%R [0; 0] [[0; 0; 0]]%R [0; 0]%R =
    Raise IndexError.
Proof.
  apply (@distances_to_centroids_short_point [[0; 0; 0]; [1; 2]]%R [0; 0]
           [[0; 0; 0]]%R [0; 0]%R).
  apply Exists_cons_tl, Exists_cons_hd. simpl. lia.
Defined.

(** * Growing K and longer rows *)

(** X15: the neighbours for [K] are the first [K] of the neighbours for a
    larger [K']: asking for more neighbours never changes the nearer ones. *)
Theorem get_neighbours_prefix (AS : ArgSort) (label : Type)
    (reference : list (list R)) (reference_labels : list label)
    (test_instance : list R) (K K' : Z) :
  Forall (fun row => List.length row = List.length test_instance) reference ->
  List.length reference_labels = List.length reference ->
  reference <> [] ->
  (0 <= K <= K')%Z ->
  exists found found',
    get_neighbours reference reference_labels test_instance K = Ok found /\
    get_neighbours reference reference_labels test_instance K' = Ok found' /\
    data found = firstn (Z.to_nat K) (data found') /\
    labels found = firstn (Z.to_nat K) (labels found').
Proof.
  intros Hdim Hlab Hne HK.
  destruct (some_label _ Hlab Hne) as [d _].
  assert (H0 : (0 <= K)%Z) by lia.
  assert (H0' : (0 <= K')%Z) by lia.
  do 2 eexists.
  split.
  { exact (@get_neighbours_found AS label reference reference_labels
             test_instance K Hdim Hlab Hne H0 d). }
  split.
  { exact (@get_neighbours_found AS label reference reference_labels
             test_instance K' Hdim Hlab Hne H0' d). }
  cbn [data labels]. rewrite !firstn_firstn.
  replace (Nat.min (Z.to_nat K) (Z.to_nat K')) with (Z.to_nat K) by lia.
  now split.
Qed.

Lemma get_neighbours_prefix_witness :
  exists found found',
    @get_neighbours stable_argsort Z [[2; 2]; [4; 4]; [0; 2]]%R [0; 1; 0]%Z
      [1; 1]%R 1 = Ok found /\
    @get_neighbours stable_argsort Z [[2; 2]; [4; 4]; [0; 2]]%R [0; 1; 0]%Z
      [1; 1]%R 3 = Ok found' /\
    data found = firstn (Z.to_nat 1) (data found') /\
    labels found = firstn (Z.to_nat 1) (labels found').
Proof.
  apply (@get_neighbours_prefix stable_argsort Z [[2; 2]; [4; 4]; [0; 2]]%R
           [0; 1; 0]%Z [1; 1]%R 1%Z 3%Z).
  - repeat constructor.
  - reflexivity.
  - discriminate.
  - lia.
Defined.

(** The distances when every row has at least the features of the query:
    the features of a row past them are not read. *)
Lemma distances_at_least (test_instance : list R) (reference : list (list R)) :
  Forall (fun row => List.length test_instance <= List.length row) reference ->
  mapM (distance_entry test_instance) reference =
    Ok (map (fun row => (row, sqrt (sum_sq_diff test_instance row))) reference).
Proof.
  intros Hdim. rewrite Forall_forall in Hdim.
  apply mapM_Ok_map. intros row Hin.
  unfold distance_entry. rewrite euclidean_distance_cases.
  destruct (Nat.leb_spec (List.length test_instance) (List.length row));
    [reflexivity|]. apply Hdim in Hin. lia.
Qed.

Lemma get_neighbours_found_longer_rows (AS : ArgSort) (label : Type)
    (reference : list (list R)) (reference_labels : list label)
    (test_instance : list R) (K : Z) (d : label) :
  Forall (fun row => List.length test_instance <= List.length row) reference ->
  List.length reference_labels = List.length reference ->
  reference <> [] ->
  get_neighbours reference reference_labels test_instance K =
  Ok {| data := slice_to (map (fun i => nth i reference [])
                            (sorted_indices reference test_instance)) K;
        labels := slice_to (map (fun i => nth i reference_labels d)
                              (sorted_indices reference test_instance)) K |}.
Proof.
  intros Hdim Hlab Hne. unfold get_neighbours.
  rewrite (@distances_at_least test_instance reference Hdim). cbn [bind].
  rewrite column1_map by exact Hne. cbn [bind].
  change (argsort (map (fun row => sqrt (sum_sq_diff test_instance row)) reference))
    with (sorted_indices reference test_instance).
  pose proof (@sorted_indices_in_range AS reference test_instance) as Hbound.
  rewrite (take_nth reference [] Hbound). cbn [bind].
  rewrite (take_nth reference_labels d) by (now rewrite Hlab).
  reflexivity.
Qed.

(** X16: when the reference rows have more features than the query,
    [get_neighbours] raises nothing and finds the neighbours by the first
    [len(test_instance)] features alone: the labels are those found for the
    rows cut to that length, and the rows returned are the uncut rows of
    the same reference points. *)
Theorem get_neighbours_longer_rows (AS : ArgSort) (label : Type)
    (reference : list (list R)) (reference_labels : list label)
    (test_instance : list R) (K : Z) :
  Forall (fun row => List.length test_instance <= List.length row) reference ->
  List.length reference_labels = List.length reference ->
  reference <> [] ->
  exists found cut,
    get_neighbours reference reference_labels test_instance K = Ok found /\
    get_neighbours (map (firstn (List.length test_instance)) reference)
      reference_labels test_instance K = Ok cut /\
    labels found = labels cut /\
    map (firstn (List.length test_instance)) (data found) = data cut.
Proof.
  intros Hdim Hlab Hne.
  destruct (some_label _ Hlab Hne) as [d _].
  assert (Hcut : Forall (fun row => List.length test_instance <= List.length row)
                   (map (firstn (List.length test_instance)) reference)).
  { rewrite Forall_forall in *. intros row Hin.
    apply in_map_iff in Hin as (row' & <- & Hin').
    rewrite length_firstn. apply Hdim in Hin'. lia. }
  assert (Hidx : sorted_indices (map (firstn (List.length test_instance)) reference)
                   test_instance =
                 sorted_indices reference test_instance).
  { unfold sorted_indices. f_equal. rewrite map_map.
    apply map_ext. intros row. now rewrite sum_sq_diff_firstn. }
  do 2 eexists. split.
  { exact (@get_neighbours_found_longer_rows AS label reference reference_labels
             test_instance K d Hdim Hlab Hne). }
  split.
  { apply (@get_neighbours_found_longer_rows AS label _ reference_labels
             test_instance K d Hcut).
    - now rewrite length_map.
    - destruct reference; [contradiction|discriminate]. }
  cbn [data labels]. rewrite Hidx. split; [reflexivity|].
  pose proof (@sorted_indices_in_range AS reference test_instance) as Hbound.
  destruct (slice_to_count (map (fun i => nth i reference [])
                              (sorted_indices reference test_instance)) K) as [-> _].
  destruct (slice_to_count
              (map (fun i => nth i (map (firstn (List.length test_instance)) reference) [])
                 (sorted_indices reference test_instance)) K) as [-> _].
  rewrite !length_map. rewrite <- firstn_map. f_equal.
  rewrite map_map. apply map_ext_in. intros i Hi.
  rewrite Forall_forall in Hbound. apply Hbound in Hi.
  rewrite (nth_indep (map (firstn (List.length test_instance)) reference)
             [] (firstn (List.length test_instance) []))
    by (rewrite length_map; exact Hi).
  now rewrite map_nth.
Qed.

Lemma get_neighbours_longer_rows_witness :
  exists found cut,
    @get_neighbours stable_argsort Z [[2; 2; 9]; [4; 4; 0]]%R [0; 1]%Z
      [5; 5]%R 1 = Ok found /\
    @get_neighbours stable_argsort Z
      (map (firstn (List.length [5; 5]%R)) [[2; 2; 9]; [4; 4; 0]]%R) [0; 1]%Z
      [5; 5]%R 1 = Ok cut /\
    labels found = labels cut /\
    map (firstn (List.length [5; 5]%R)) (data found) = data cut.
Proof.
  apply (@get_neighbours_longer_rows stable_argsort Z [[2; 2; 9]; [4; 4; 0]]%R
           [0; 1]%Z [5; 5]%R 1%Z).
  - repeat constructor.
  - reflexivity.
  - discriminate.
Defined.
